(** * LiteLLM key management: access control and secret masking

    A shallow embedding of the key store
    ([backend/open_webui/models/litellm_keys.py]), of the gateway client
    ([backend/open_webui/utils/litellm_client.py]) and of the HTTP router
    ([backend/open_webui/routers/litellm_keys.py]), with the properties of
    masking, ownership, uniqueness and error reporting proved about them.

    Python [str] is [string]; the table [litellm_key] is the list of its rows
    in the order the database yields them (no query of the source has an
    ORDER BY, and no claim below rests on where a row stands); an operation
    on the table takes the table and returns its result together with the
    table it leaves behind; a raised exception is the [Raise] case of [res]. *)

From Stdlib Require Import List String Ascii ZArith Bool Arith Lia DecimalString
  Permutation.
Import ListNotations.
Open Scope string_scope.

(* ================================================================== *)
(** ** Python strings *)

Module Py.

(** [c * n] for a one-character string [c]. *)
Fixpoint repeat_char (c : ascii) (n : nat) : string :=
  match n with
  | O => EmptyString
  | S n' => String c (repeat_char c n')
  end.

(** [s[:n]] for [n >= 0]. *)
Fixpoint take (n : nat) (s : string) : string :=
  match n, s with
  | S n', String c s' => String c (take n' s')
  | _, _ => EmptyString
  end.

(** [s[n:]] for [n >= 0]. *)
Fixpoint drop (n : nat) (s : string) : string :=
  match n, s with
  | S n', String _ s' => drop n' s'
  | _, _ => s
  end.

(** [s[-n:]] for [n > 0]: the slice starts at [max 0 (len s - n)]. *)
Definition last (n : nat) (s : string) : string :=
  drop (String.length s - n) s.

(** [sep.join(l)]. *)
Fixpoint join (sep : string) (l : list string) : string :=
  match l with
  | [] => EmptyString
  | [x] => x
  | x :: rest => x ++ sep ++ join sep rest
  end.

(** [x in l] for a list of strings. *)
Definition mem (x : string) (l : list string) : bool :=
  existsb (String.eqb x) l.

(** Every character of [s] is [c]. *)
Fixpoint all_char (c : ascii) (s : string) : bool :=
  match s with
  | EmptyString => true
  | String c' s' => Ascii.eqb c' c && all_char c s'
  end.

End Py.

(* ================================================================== *)
(** ** The two maskers *)

Definition star : ascii := "*"%char.

(** [LiteLLMKeys._mask_api_key] (models/litellm_keys.py). *)
Definition _mask_api_key (api_key : string) : string :=
  if (String.length api_key <=? 12)%nat
  then Py.repeat_char star (String.length api_key)
  else Py.take 8 api_key
       ++ Py.repeat_char star (String.length api_key - 12)
       ++ Py.last 4 api_key.

(** Truthiness of a [str]: the empty string is falsy. *)
Definition truthy (s : string) : bool :=
  match s with EmptyString => false | _ => true end.

(** [LiteLLMClient._mask_key] (utils/litellm_client.py). *)
Definition _mask_key (api_key : string) : string :=
  if negb (truthy api_key) || (String.length api_key <=? 12)%nat
  then Py.repeat_char star (if truthy api_key then String.length api_key else 8)
  else Py.take 8 api_key
       ++ Py.repeat_char star (String.length api_key - 12)
       ++ Py.last 4 api_key.

(** The shape [head ++ stars ++ tail] both maskers give a long secret. *)
Definition redacted (s : string) : string :=
  Py.take 8 s ++ Py.repeat_char star (String.length s - 12) ++ Py.last 4 s.

(* ================================================================== *)
(** ** Exceptions and results *)

(** The exceptions the three modules raise or catch.  [IntegrityError] is the
    database's answer to a second row with the same primary key, [Exception]
    is the class [Exception] itself, and [OtherException] is an exception of
    any other class, with the name of its class. *)
Inductive exn : Type :=
| ValueError (msg : string)
| IntegrityError (msg : string)
| HTTPException (status_code : Z) (detail : string)
| Exception (msg : string)
| OtherException (class_name : string) (msg : string).

Inductive res (A : Type) : Type :=
| Ok (a : A)
| Raise (e : exn).

Arguments Ok {A} a.
Arguments Raise {A} e.

(** [str(e)]. *)
Definition str_of_exn (e : exn) : string :=
  match e with
  | ValueError m | IntegrityError m | Exception m => m
  | HTTPException _ d => d
  | OtherException _ m => m
  end.

Definition HTTP_400_BAD_REQUEST : Z := 400.
Definition HTTP_403_FORBIDDEN : Z := 403.
Definition HTTP_404_NOT_FOUND : Z := 404.
Definition HTTP_500_INTERNAL_SERVER_ERROR : Z := 500.

(* ================================================================== *)
(** ** Data model (models/litellm_keys.py) *)

(** JSON values, for the free-form [metadata] column. *)
#[warnings="-register-all"]
Inductive json : Type :=
| JNull
| JBool (b : bool)
| JNum (z : Z)
| JStr (s : string)
| JArr (l : list json)
| JObj (l : list (string * json)).

(** A row of [litellm_key]; [LiteLLMKeyModel] has the same fields and
    [model_validate] copies them. *)
Record LiteLLMKey : Type := mkLiteLLMKey {
  id : string;
  user_id : string;
  key_name : string;
  api_key : string;
  key_type : string;
  group_ids : option (list string);
  is_active : bool;
  description : option string;
  metadata : option (list (string * json));
  created_at : Z;
  updated_at : Z;
  last_used_at : option Z
}.

Definition LiteLLMKeyModel : Type := LiteLLMKey.

Definition model_validate (k : LiteLLMKey) : LiteLLMKeyModel := k.

Record LiteLLMKeyCreateForm : Type := mkCreateForm {
  cf_key_name : string;
  cf_api_key : string;
  cf_key_type : string;
  cf_group_ids : option (list string);
  cf_description : option string;
  cf_metadata : option (list (string * json))
}.

Record LiteLLMKeyUpdateForm : Type := mkUpdateForm {
  uf_key_name : option string;
  uf_api_key : option string;
  uf_key_type : option string;
  uf_group_ids : option (list string);
  uf_is_active : option bool;
  uf_description : option string;
  uf_metadata : option (list (string * json))
}.

Record LiteLLMKeyListResponse : Type := mkListResponse {
  keys : list LiteLLMKeyModel;
  total : nat
}.

(** The table: its rows in the order the database yields them. *)
Definition table : Type := list LiteLLMKey.

(** Attribute assignments [key.f = v]. *)
Definition set_key_name (v : string) (k : LiteLLMKey) : LiteLLMKey :=
  mkLiteLLMKey (id k) (user_id k) v (api_key k) (key_type k) (group_ids k)
    (is_active k) (description k) (metadata k) (created_at k) (updated_at k)
    (last_used_at k).

Definition set_api_key (v : string) (k : LiteLLMKey) : LiteLLMKey :=
  mkLiteLLMKey (id k) (user_id k) (key_name k) v (key_type k) (group_ids k)
    (is_active k) (description k) (metadata k) (created_at k) (updated_at k)
    (last_used_at k).

Definition set_key_type (v : string) (k : LiteLLMKey) : LiteLLMKey :=
  mkLiteLLMKey (id k) (user_id k) (key_name k) (api_key k) v (group_ids k)
    (is_active k) (description k) (metadata k) (created_at k) (updated_at k)
    (last_used_at k).

Definition set_group_ids (v : list string) (k : LiteLLMKey) : LiteLLMKey :=
  mkLiteLLMKey (id k) (user_id k) (key_name k) (api_key k) (key_type k) (Some v)
    (is_active k) (description k) (metadata k) (created_at k) (updated_at k)
    (last_used_at k).

Definition set_is_active (v : bool) (k : LiteLLMKey) : LiteLLMKey :=
  mkLiteLLMKey (id k) (user_id k) (key_name k) (api_key k) (key_type k)
    (group_ids k) v (description k) (metadata k) (created_at k) (updated_at k)
    (last_used_at k).

Definition set_description (v : string) (k : LiteLLMKey) : LiteLLMKey :=
  mkLiteLLMKey (id k) (user_id k) (key_name k) (api_key k) (key_type k)
    (group_ids k) (is_active k) (Some v) (metadata k) (created_at k)
    (updated_at k) (last_used_at k).

Definition set_metadata (v : list (string * json)) (k : LiteLLMKey) : LiteLLMKey :=
  mkLiteLLMKey (id k) (user_id k) (key_name k) (api_key k) (key_type k)
    (group_ids k) (is_active k) (description k) (Some v) (created_at k)
    (updated_at k) (last_used_at k).

Definition set_updated_at (v : Z) (k : LiteLLMKey) : LiteLLMKey :=
  mkLiteLLMKey (id k) (user_id k) (key_name k) (api_key k) (key_type k)
    (group_ids k) (is_active k) (description k) (metadata k) (created_at k) v
    (last_used_at k).

(** [if v is not None: key.f = v]. *)
Definition assign_if {A : Type} (set : A -> LiteLLMKey -> LiteLLMKey)
    (v : option A) (k : LiteLLMKey) : LiteLLMKey :=
  match v with
  | Some a => set a k
  | None => k
  end.

(** [key_model.api_key = LiteLLMKeys._mask_api_key(key_model.api_key)]. *)
Definition masked (k : LiteLLMKey) : LiteLLMKeyModel :=
  set_api_key (_mask_api_key (api_key (model_validate k))) (model_validate k).

(** Two group lists have a group in common; a record without a group list
    shares none.  This is the overlap the specification words as "sharing
    any group". *)
Definition overlaps (column : option (list string)) (gs : list string) : bool :=
  match column with
  | None => false
  | Some l => existsb (fun g => Py.mem g gs) l
  end.

(** What the database makes of [LiteLLMKey.group_ids.op('&&')(group_ids)].
    The column is [JSON]: SQLite has no operator [&&] and PostgreSQL has none
    on [json], so the databases the application runs on refuse the query and
    the operator is [Raise e], with [e] the error of the driver.  [Ok overlap]
    stands for a database that gives the operator a meaning. *)
Definition overlap_operator : Type :=
  res (option (list string) -> list string -> bool).

(* ================================================================== *)
(** ** The local store: [class LiteLLMKeys] *)

(** [uuid4] is the value of [str(uuid.uuid4())] and [now] the value of
    [int(time.time())] of the call; the database refuses a second row with an
    existing primary key. *)
Definition create_key (uuid4 : string) (now : Z) (uid : string)
    (key_data : LiteLLMKeyCreateForm) (db : table)
  : res LiteLLMKeyModel * table :=
  match find (fun k => (user_id k =? uid) && (key_name k =? cf_key_name key_data)) db with
  | Some _ =>
      (Raise (ValueError ("Key name '" ++ cf_key_name key_data ++ "' already exists")), db)
  | None =>
      let new_key :=
        mkLiteLLMKey uuid4 uid (cf_key_name key_data) (cf_api_key key_data)
          (cf_key_type key_data) (cf_group_ids key_data) true
          (cf_description key_data) (cf_metadata key_data) now now None in
      if existsb (fun k => id k =? uuid4) db
      then (Raise (IntegrityError "duplicate key value: litellm_key.id"), db)
      else (Ok (model_validate new_key), (db ++ [new_key])%list)
  end.

(** [skip] and [limit] are the non-negative values of the source's [int]s;
    what a database makes of a negative offset or limit is not modelled. *)
Definition get_keys_by_user_id (uid : string) (skip limit : nat) (db : table)
  : LiteLLMKeyListResponse :=
  let owned := filter (fun k => user_id k =? uid) db in
  mkListResponse (map masked (firstn limit (skipn skip owned))) (List.length owned).

Definition get_key_by_id (key_id uid : string) (db : table)
  : option LiteLLMKeyModel :=
  match find (fun k => (id k =? key_id) && (user_id k =? uid)) db with
  | Some key => Some (masked key)
  | None => None
  end.

(** The field assignments of [update_key], in the source's order. *)
Definition apply_update (now : Z) (update_data : LiteLLMKeyUpdateForm)
    (key : LiteLLMKey) : LiteLLMKey :=
  set_updated_at now
    (assign_if set_metadata (uf_metadata update_data)
    (assign_if set_description (uf_description update_data)
    (assign_if set_is_active (uf_is_active update_data)
    (assign_if set_group_ids (uf_group_ids update_data)
    (assign_if set_key_type (uf_key_type update_data)
    (assign_if set_api_key (uf_api_key update_data)
    (assign_if set_key_name (uf_key_name update_data) key))))))).

(** The row with primary key [pk] is written back.  The row keeps its place
    in the list; where a database puts an updated row is its own affair. *)
Definition write_row (pk : string) (key' : LiteLLMKey) (db : table) : table :=
  map (fun k => if id k =? pk then key' else k) db.

Definition update_key (now : Z) (key_id uid : string)
    (update_data : LiteLLMKeyUpdateForm) (db : table)
  : res (option LiteLLMKeyModel) * table :=
  match find (fun k => (id k =? key_id) && (user_id k =? uid)) db with
  | None => (Ok None, db)
  | Some key =>
      let key' := apply_update now update_data key in
      let committed := (Ok (Some (masked key')), write_row key_id key' db) in
      match uf_key_name update_data with
      | Some new_name =>
          match find (fun k => (user_id k =? uid) && (key_name k =? new_name)
                               && negb (id k =? key_id)) db with
          | Some _ =>
              (Raise (ValueError ("Key name '" ++ new_name ++ "' already exists")), db)
          | None => committed
          end
      | None => committed
      end
  end.

(** [db.delete(key)] removes the row by its primary key. *)
Definition delete_key (key_id uid : string) (db : table) : res bool * table :=
  match find (fun k => (id k =? key_id) && (user_id k =? uid)) db with
  | None => (Ok false, db)
  | Some key => (Ok true, filter (fun k => negb (id k =? id key)) db)
  end.

(** [op] is what the database makes of the operator [&&] of the query. *)
Definition get_keys_by_group_ids (op : overlap_operator) (gids : list string)
    (uid : string) (db : table) : res (list LiteLLMKeyModel) :=
  match op with
  | Raise e => Raise e
  | Ok overlap =>
      let keys :=
        filter (fun k => is_active k)
          (filter (fun k => (user_id k =? uid) || overlap (group_ids k) gids)
                  db) in
      Ok (map masked keys)
  end.

(* ================================================================== *)
(** ** The gateway client: [class LiteLLMClient] *)

(** An entry of the gateway's [/key/info] listing, and the dictionaries the
    client returns.  A field that is [None] is a key the dictionary lacks. *)
Record KeyInfo : Type := mkKeyInfo {
  ki_id : option string;
  ki_user_id : option string;
  ki_key_name : option string;
  ki_api_key : option string;
  ki_groups : option (list string);
  ki_is_active : option bool;
  ki_updated_at : option Z;
  ki_is_shared : option bool
}.

(** [d.get(k, default)]. *)
Definition get_or {A : Type} (v : option A) (default : A) : A :=
  match v with
  | Some a => a
  | None => default
  end.

(** [key_info.get("user_id") == user_id]. *)
Definition owner_is (key_info : KeyInfo) (uid : string) : bool :=
  match ki_user_id key_info with
  | Some u => u =? uid
  | None => false
  end.

(** The two assignments of [get_accessible_keys] on an accepted entry. *)
Definition mark_accessible (uid : string) (key_info : KeyInfo) : KeyInfo :=
  mkKeyInfo (ki_id key_info) (ki_user_id key_info) (ki_key_name key_info)
    (Some (_mask_key (get_or (ki_api_key key_info) EmptyString)))
    (ki_groups key_info) (ki_is_active key_info) (ki_updated_at key_info)
    (Some (negb (owner_is key_info uid))).

(** [response] is what [_make_request("GET", "/key/info")] gave: the list
    under ["data"] when the body has one, or the exception it raised. *)
Definition get_accessible_keys (uid : string) (user_groups : list string)
    (response : res (option (list KeyInfo))) : list KeyInfo :=
  match response with
  | Raise _ => []
  | Ok data =>
      map (mark_accessible uid)
        (filter
           (fun key_info =>
              let key_groups := get_or (ki_groups key_info) [] in
              owner_is key_info uid
              || existsb (fun group => Py.mem group user_groups) key_groups)
           (get_or data []))
  end.

(** The fields of [update_data.dict(exclude_unset=True)] the client reads. *)
Record Updates : Type := mkUpdates {
  up_key_name : option string;
  up_groups : option (list string);
  up_is_active : option bool;
  up_description : option string
}.

(** [response] is what [_make_request("PUT", "/key/update", ...)] gave and
    [now] the clock reading of [datetime.utcnow().timestamp()]. *)
Definition update_user_key (now : Z) (key_id uid : string) (updates : Updates)
    (response : res unit) : res KeyInfo :=
  match response with
  | Raise e =>
      Raise (Exception ("Failed to update API key: " ++ str_of_exn e))
  | Ok _ =>
      Ok (mkKeyInfo (Some key_id) (Some uid)
            (Some (get_or (up_key_name updates) EmptyString))
            (Some (_mask_key EmptyString))
            (Some (get_or (up_groups updates) []))
            (Some (get_or (up_is_active updates) true))
            (Some now)
            None)
  end.

(* ================================================================== *)
(** ** The router (routers/litellm_keys.py) *)

Record UserModel : Type := mkUser {
  uid_of : string;   (* user.id *)
  role : string
}.

Definition check_litellm_access (user : UserModel) : bool :=
  Py.mem (role user) ["admin"; "user"].

Definition access_denied {A : Type} : res A :=
  Raise (HTTPException HTTP_403_FORBIDDEN "Access denied to LiteLLM key management").

(** [[gid for gid in requested if gid not in user_groups]]. *)
Definition invalid_groups_of (requested user_groups : list string) : list string :=
  filter (fun gid => negb (Py.mem gid user_groups)) requested.

Definition not_a_member {A : Type} (invalid_groups : list string) : res A :=
  Raise (HTTPException HTTP_400_BAD_REQUEST
           ("User is not a member of groups: " ++ Py.join ", " invalid_groups)).

(** The handlers [except HTTPException: raise] and [except Exception: 500]. *)
Definition reraise_http {A : Type} (detail : string) (r : res A) : res A :=
  match r with
  | Ok a => Ok a
  | Raise (HTTPException c d) => Raise (HTTPException c d)
  | Raise _ => Raise (HTTPException HTTP_500_INTERNAL_SERVER_ERROR detail)
  end.

(** The handlers [except ValueError: 400], [except HTTPException: raise] and
    [except Exception: 500]. *)
Definition value_error_400 {A : Type} (detail : string) (r : res A) : res A :=
  match r with
  | Raise (ValueError m) => Raise (HTTPException HTTP_400_BAD_REQUEST m)
  | _ => reraise_http detail r
  end.

Section Router.

(** [Groups.get_user_groups(user.id)], mapped to the groups' ids; [Raise]
    when the group directory fails. *)
Variable Groups_get_user_groups : string -> res (list string).

Definition get_user_groups (user : UserModel) : list string :=
  match Groups_get_user_groups (uid_of user) with
  | Ok user_groups => user_groups
  | Raise _ => []
  end.

(** [GET /]: its only handler is [except Exception]. *)
Definition get_litellm_keys (skip limit : nat) (user : UserModel) (db : table)
  : res LiteLLMKeyListResponse :=
  let body :=
    if negb (check_litellm_access user) then access_denied
    else Ok (get_keys_by_user_id (uid_of user) skip limit db) in
  match body with
  | Ok result => Ok result
  | Raise _ =>
      Raise (HTTPException HTTP_500_INTERNAL_SERVER_ERROR
               "Failed to retrieve LiteLLM keys")
  end.

(** [GET /{key_id}]. *)
Definition get_litellm_key (key_id : string) (user : UserModel) (db : table)
  : res LiteLLMKeyModel :=
  reraise_http "Failed to retrieve LiteLLM key"
    (if negb (check_litellm_access user) then access_denied
     else match get_key_by_id key_id (uid_of user) db with
          | None => Raise (HTTPException HTTP_404_NOT_FOUND "LiteLLM key not found")
          | Some key => Ok key
          end).

(** [POST /]. *)
Definition create_litellm_key (uuid4 : string) (now : Z)
    (key_data : LiteLLMKeyCreateForm) (user : UserModel) (db : table)
  : res LiteLLMKeyModel * table :=
  let create := create_key uuid4 now (uid_of user) key_data db in
  let body :=
    if negb (check_litellm_access user) then (access_denied, db)
    else match cf_group_ids key_data with
         | Some ((_ :: _) as requested) =>
             let user_groups := get_user_groups user in
             match invalid_groups_of requested user_groups with
             | [] => create
             | invalid_groups => (not_a_member invalid_groups, db)
             end
         | _ => create
         end in
  (value_error_400 "Failed to create LiteLLM key" (fst body), snd body).

(** [PUT /{key_id}]. *)
Definition update_litellm_key (now : Z) (key_id : string)
    (update_data : LiteLLMKeyUpdateForm) (user : UserModel) (db : table)
  : res LiteLLMKeyModel * table :=
  let update :=
    match update_key now key_id (uid_of user) update_data db with
    | (Ok None, db') =>
        (Raise (HTTPException HTTP_404_NOT_FOUND "LiteLLM key not found"), db')
    | (Ok (Some key), db') => (Ok key, db')
    | (Raise e, db') => (Raise e, db')
    end in
  let body :=
    if negb (check_litellm_access user) then (access_denied, db)
    else match uf_group_ids update_data with
         | Some ((_ :: _) as requested) =>
             let user_groups := get_user_groups user in
             match invalid_groups_of requested user_groups with
             | [] => update
             | invalid_groups => (not_a_member invalid_groups, db)
             end
         | _ => update
         end in
  (value_error_400 "Failed to update LiteLLM key" (fst body), snd body).

(** [DELETE /{key_id}]; [Ok tt] is the success message. *)
Definition delete_litellm_key (key_id : string) (user : UserModel) (db : table)
  : res unit * table :=
  let body :=
    if negb (check_litellm_access user) then (access_denied, db)
    else match delete_key key_id (uid_of user) db with
         | (Ok true, db') => (Ok tt, db')
         | (Ok false, db') =>
             (Raise (HTTPException HTTP_404_NOT_FOUND "LiteLLM key not found"), db')
         | (Raise e, db') => (Raise e, db')
         end in
  (reraise_http "Failed to delete LiteLLM key" (fst body), snd body).

(** [GET /groups/accessible]. *)
Definition get_accessible_litellm_keys (op : overlap_operator)
    (user : UserModel) (db : table) : res (list LiteLLMKeyModel) :=
  reraise_http "Failed to retrieve accessible LiteLLM keys"
    (if negb (check_litellm_access user) then access_denied
     else let user_groups := get_user_groups user in
          match user_groups with
          | [] => Ok []
          | _ => get_keys_by_group_ids op user_groups (uid_of user) db
          end).

End Router.

(* ================================================================== *)
(** ** Invariants of the table and the wording of the specification *)

(** The primary key: no two rows share an [id]. *)
Definition unique_ids (db : table) : Prop := NoDup (map id db).

(** The pair (owner, name) identifies a row. *)
Definition unique_names (db : table) : Prop :=
  forall k1 k2, In k1 db -> In k2 db ->
    user_id k1 = user_id k2 -> key_name k1 = key_name k2 -> id k1 = id k2.

Definition wf (db : table) : Prop := unique_ids db /\ unique_names db.

(** The contract of masking as the specification words it, for a masker
    [mask] on a secret [s]. *)
Definition mask_contract (mask : string -> string) (s : string) : Prop :=
  String.length (mask s) = String.length s
  /\ (String.length s <= 12 ->
      forall i c, String.get i (mask s) = Some c -> c = star)
  /\ (12 < String.length s ->
      mask s = Py.take 8 s ++ Py.repeat_char star (String.length s - 12) ++ Py.last 4 s
      /\ Py.take 8 (mask s) = Py.take 8 s
      /\ Py.last 4 (mask s) = Py.last 4 s
      /\ forall i, 8 <= i < String.length s - 4 ->
           String.get i (mask s) = Some star).

(** Visibility as the specification words it: the owner always, anyone else
    through a shared group of an active record. *)
Definition visible_spec (requester_groups : list string) (requester : string)
    (k : LiteLLMKey) : bool :=
  (user_id k =? requester) || (is_active k && overlaps (group_ids k) requester_groups).

(** [listAccessible] of the local store as the specification words it. *)
Definition listAccessible_spec (requester_groups : list string)
    (requester : string) (db : table) : list LiteLLMKeyModel :=
  map masked (filter (visible_spec requester_groups requester) db).


(** A group list and the requester's groups have a group in common. *)
Definition shares_group (groups : option (list string)) (gs : list string) : Prop :=
  exists l g, groups = Some l /\ In g l /\ In g gs.

(** The model [m] is a row of [db] with its secret masked. *)
Definition shows_masked (db : table) (m : LiteLLMKeyModel) : Prop :=
  exists k, In k db /\ m = masked k /\ api_key m = _mask_api_key (api_key k).


(** A row of [db] with this id belongs to this owner. *)
Definition owned_row (key_id uid : string) (db : table) : Prop :=
  exists k, In k db /\ id k = key_id /\ user_id k = uid.


(* ================================================================== *)
(** ** Sample data *)

Module Sample.

Definition secret : string := "sk-abcdef1234567890".

Definition k1 : LiteLLMKey :=
  mkLiteLLMKey "key-1" "u1" "k1" secret "api_key" (Some ["g1"]) true
    None None 100 100 None.

(** [k1] after its owner switched it off. *)
Definition k1_off : LiteLLMKey := set_is_active false k1.

Definition form1 : LiteLLMKeyCreateForm :=
  mkCreateForm "k1" secret "api_key" (Some ["g1"]) None None.

Definition no_change : LiteLLMKeyUpdateForm :=
  mkUpdateForm None None None None None None None.

Definition switch_off : LiteLLMKeyUpdateForm :=
  mkUpdateForm None None None None (Some false) None None.

Definition entry1 : KeyInfo :=
  mkKeyInfo (Some "key-1") (Some "u1") (Some "k1") (Some secret)
    (Some ["g1"]) (Some true) None None.

Definition entry1_off : KeyInfo :=
  mkKeyInfo (Some "key-1") (Some "u1") (Some "k1") (Some secret)
    (Some ["g1"]) (Some false) None None.

Definition u1 : UserModel := mkUser "u1" "user".
Definition pending : UserModel := mkUser "u9" "pending".

(** A group directory in which [u1] belongs to [g1] only. *)
Definition directory (uid : string) : res (list string) :=
  if uid =? "u1" then Ok ["g1"] else Ok [].

(** A group directory that is down. *)
Definition broken_directory (uid : string) : res (list string) :=
  Raise (Exception "group directory unavailable").

(** The operator [&&] on the JSON column, as PostgreSQL answers it. *)
Definition json_column : overlap_operator :=
  Raise (OtherException "ProgrammingError"
           "operator does not exist: json && unknown").

End Sample.

(* ================================================================== *)
(** ** The gateway client: requests and the remaining operations *)

(** [s.lstrip(c)] and [s.rstrip(c)] for a one-character [c]. *)
Fixpoint lstrip (c : ascii) (s : string) : string :=
  match s with
  | EmptyString => EmptyString
  | String c' s' => if Ascii.eqb c' c then lstrip c s' else s
  end.

Fixpoint rstrip (c : ascii) (s : string) : string :=
  match s with
  | EmptyString => EmptyString
  | String c' s' =>
      match rstrip c s' with
      | EmptyString => if Ascii.eqb c' c then EmptyString else String c' EmptyString
      | rest => String c' rest
      end
  end.

(** [str(n)] for an [int]. *)
Definition str_of_int (n : Z) : string :=
  DecimalString.NilZero.string_of_int (Z.to_int n).

(** The configuration a [LiteLLMClient] holds; [master_key] is [None] when
    neither the argument nor the configuration gives one. *)
Record LiteLLMClient : Type := mkClient {
  base_url : string;
  master_key : option string;
  enabled : bool
}.

(** [not self.master_key] is false only for a non-empty key. *)
Definition has_master_key (self : LiteLLMClient) : bool :=
  match master_key self with
  | Some k => truthy k
  | None => false
  end.

(** The URL [_make_request] builds. *)
Definition request_url (self : LiteLLMClient) (endpoint : string) : string :=
  rstrip "/" (base_url self) ++ "/" ++ lstrip "/" endpoint.

(** What the body of the [try] of [_make_request] comes to before its own
    check of the status: an [aiohttp.ClientError], with its text (a refused
    connection, an answer whose content type is not JSON); any other
    exception, as it is (a timeout, a body that does not parse, an error body
    that is no object and so has no [get]); or an answer that decoded as
    JSON, with its status, the text of the ["detail"] of its body when it has
    one, and the body. *)
Inductive http_outcome (B : Type) : Type :=
| ClientError (msg : string)
| OtherError (e : exn)
| Response (status : Z) (detail : option string) (body : B).

Arguments ClientError {B} msg.
Arguments OtherError {B} e.
Arguments Response {B} status detail body.

Definition _make_request {B : Type} (self : LiteLLMClient)
    (outcome : http_outcome B) : res B :=
  if negb (enabled self) then
    Raise (Exception "LiteLLM integration is disabled")
  else if negb (has_master_key self) then
    Raise (Exception "LiteLLM master API key is not configured")
  else
    match outcome with
    | Response status detail body =>
        if (400 <=? status)%Z then
          Raise (Exception
                   ("LiteLLM API error: "
                    ++ get_or detail ("HTTP " ++ str_of_int status)))
        else Ok body
    | ClientError e =>
        Raise (Exception ("Failed to connect to LiteLLM API: " ++ e))
    | OtherError e => Raise e
    end.

(** [key_info["api_key"] = self._mask_key(key_info.get("api_key", ""))]. *)
Definition mask_entry (key_info : KeyInfo) : KeyInfo :=
  mkKeyInfo (ki_id key_info) (ki_user_id key_info) (ki_key_name key_info)
    (Some (_mask_key (get_or (ki_api_key key_info) EmptyString)))
    (ki_groups key_info) (ki_is_active key_info) (ki_updated_at key_info)
    (ki_is_shared key_info).

(** [response] is what [_make_request("GET", "/key/info")] gave. *)
Definition get_user_keys (uid : string)
    (response : res (option (list KeyInfo))) : list KeyInfo :=
  match response with
  | Raise _ => []
  | Ok data =>
      map mask_entry
        (filter (fun key_info => owner_is key_info uid) (get_or data []))
  end.

(** [response] is what [_make_request("DELETE", "/key/delete", ...)] gave. *)
Definition delete_user_key {B : Type} (response : res B) : res bool :=
  match response with
  | Ok _ => Ok true
  | Raise e => Raise (Exception ("Failed to delete API key: " ++ str_of_exn e))
  end.

(** [response] is what [_make_request("GET", "/health")] gave. *)
Definition test_connection {B : Type} (response : res B) : bool :=
  match response with
  | Ok _ => true
  | Raise _ => false
  end.

(** A JSON object as a Python [dict]. *)
Definition dict : Type := list (string * json).

(** [d.get(k)]. *)
Fixpoint dict_get (d : dict) (k : string) : option json :=
  match d with
  | [] => None
  | (k', v) :: rest => if k' =? k then Some v else dict_get rest k
  end.

(** [response] is what [_make_request("GET", "/key/info/{key_id}")] gave. *)
Definition get_key_status (key_id : string) (response : res dict) : dict :=
  match response with
  | Ok r =>
      [ ("id", JStr key_id);
        ("is_active", get_or (dict_get r "is_active") (JBool true));
        ("usage_count", get_or (dict_get r "usage_count") (JNum 0));
        ("last_used", get_or (dict_get r "last_used") JNull);
        ("expires_at", get_or (dict_get r "expires_at") JNull);
        ("budget_used", get_or (dict_get r "budget_used") (JNum 0));
        ("budget_limit", get_or (dict_get r "budget_limit") JNull) ]
  | Raise e =>
      [ ("id", JStr key_id);
        ("is_active", JBool false);
        ("error", JStr (str_of_exn e)) ]
  end.

(* ================================================================== *)
(** ** The gateway router (litellm_keys_v2.py) *)

Module V2.

(** The handlers [except HTTPException: raise] and [except Exception as e:
    500] with [str(e)] in the detail. *)
Definition reraise_http_with_cause {A : Type} (detail : string) (r : res A)
  : res A :=
  match r with
  | Ok a => Ok a
  | Raise (HTTPException c d) => Raise (HTTPException c d)
  | Raise e =>
      Raise (HTTPException HTTP_500_INTERNAL_SERVER_ERROR
               (detail ++ ": " ++ str_of_exn e))
  end.

(** [DELETE /{key_id}]; [response] is what the gateway request gives when the
    endpoint gets as far as making it, and [Ok tt] is the success message. *)
Definition delete_litellm_key {B : Type} (user : UserModel) (response : res B)
  : res unit :=
  reraise_http_with_cause "Failed to delete LiteLLM key"
    (if negb (check_litellm_access user) then access_denied
     else match delete_user_key response with
          | Ok true => Ok tt
          | Ok false =>
              Raise (HTTPException HTTP_404_NOT_FOUND "LiteLLM key not found")
          | Raise e => Raise e
          end).

(** The body of [GET /health/connection]. *)
Record ConnectionReport : Type := mkConnectionReport {
  connected : bool;
  report_base_url : string;
  report_enabled : bool;
  master_key_configured : bool
}.

Definition test_litellm_connection {B : Type} (self : LiteLLMClient)
    (outcome : http_outcome B) : res ConnectionReport :=
  Ok (mkConnectionReport (test_connection (_make_request self outcome))
        (base_url self) (enabled self) (has_master_key self)).

End V2.

(* ================================================================== *)
(** ** The installation test script (test_litellm_keys_plugin.py) *)

Module PluginTest.

(** The loop of [main]: a test passes when it returns a true value; one that
    returns false or raises does not, and the loop goes on. *)
Fixpoint run_tests (outcomes : list (res bool)) (passed : nat) : nat :=
  match outcomes with
  | [] => passed
  | Ok true :: rest => run_tests rest (S passed)
  | _ :: rest => run_tests rest passed
  end.

(** The exit status [main] returns. *)
Definition main (outcomes : list (res bool)) : Z :=
  let passed := run_tests outcomes 0 in
  let total := List.length outcomes in
  if Nat.eqb passed total then 0%Z else 1%Z.

End PluginTest.

(* ================================================================== *)
(** ** Further wording *)

(** The model shows nothing of the secret but its length, its first eight
    and its last four characters. *)
Definition same_outline (s t : string) : Prop :=
  String.length s = String.length t
  /\ Py.take 8 s = Py.take 8 t
  /\ Py.last 4 s = Py.last 4 t.

(** A gateway request that can give a body: the integration is enabled, a
    master key is set and the gateway's answer decoded as JSON with a status
    below 400. *)
Definition request_succeeds {B : Type} (self : LiteLLMClient)
    (outcome : http_outcome B) : Prop :=
  enabled self = true /\ has_master_key self = true
  /\ exists status detail body,
       outcome = Response status detail body /\ (status < 400)%Z.

(** One page of a listing. *)
Definition page (uid : string) (skip limit : nat) (db : table)
  : list LiteLLMKeyModel :=
  keys (get_keys_by_user_id uid skip limit db).


Module Demo.

Definition client : LiteLLMClient :=
  mkClient "http://gateway:4000/" (Some "sk-master") true.

Definition disabled_client : LiteLLMClient :=
  mkClient "http://gateway:4000/" (Some "sk-master") false.

Definition k2 : LiteLLMKey :=
  mkLiteLLMKey "key-2" "u2" "k2" "sk-zyxwvu0987654321" "api_key" None true
    None None 110 110 None.

Definition entry2 : KeyInfo :=
  mkKeyInfo (Some "key-2") (Some "u2") (Some "k2") (Some "sk-zyxwvu0987654321")
    (Some ["g1"]) (Some true) None None.

End Demo.

(* ================================================================== *)
(** ** Lemmas on strings *)

Section StringFacts.

Lemma length_repeat_char c n : String.length (Py.repeat_char c n) = n.
Proof. induction n as [|n IH]; simpl; congruence. Qed.

Lemma length_app (s t : string) :
  String.length (s ++ t) = String.length s + String.length t.
Proof. induction s as [|c s IH]; simpl; congruence. Qed.

Lemma length_take n : forall s,
  String.length (Py.take n s) = Nat.min n (String.length s).
Proof.
  induction n as [|n IH]; intros [|c s]; simpl; auto.
Qed.

Lemma length_drop n : forall s,
  String.length (Py.drop n s) = String.length s - n.
Proof.
  induction n as [|n IH]; intros [|c s]; simpl; auto.
Qed.

Lemma length_last n s :
  String.length (Py.last n s) = Nat.min n (String.length s).
Proof. unfold Py.last. rewrite length_drop. lia. Qed.

Lemma take_app_exact n : forall s t,
  String.length s = n -> Py.take n (s ++ t) = s.
Proof.
  induction n as [|n IH]; intros [|c s] t H; simpl in *;
    try discriminate; auto.
  f_equal. apply IH. lia.
Qed.

Lemma drop_app_exact n : forall s t,
  String.length s = n -> Py.drop n (s ++ t) = t.
Proof.
  induction n as [|n IH]; intros [|c s] t H; simpl in *;
    try discriminate; auto.
Qed.

Lemma all_char_repeat c n : Py.all_char c (Py.repeat_char c n) = true.
Proof.
  induction n as [|n IH]; simpl; auto.
  rewrite Ascii.eqb_refl. exact IH.
Qed.

Lemma get_app_l i : forall s t,
  i < String.length s -> String.get i (s ++ t) = String.get i s.
Proof.
  induction i as [|i IH]; intros [|c s] t H; simpl in *; try lia; auto.
  apply IH. lia.
Qed.

Lemma get_app_r i : forall s t,
  String.length s <= i ->
  String.get i (s ++ t) = String.get (i - String.length s) t.
Proof.
  induction i as [|i IH]; intros [|c s] t H; simpl in *; try lia; auto.
  apply IH. lia.
Qed.

Lemma get_repeat_char c n : forall i,
  i < n -> String.get i (Py.repeat_char c n) = Some c.
Proof.
  induction n as [|n IH]; intros [|i] H; simpl; try lia; auto.
  apply IH. lia.
Qed.

Lemma get_all_char c s :
  Py.all_char c s = true ->
  forall i x, String.get i s = Some x -> x = c.
Proof.
  induction s as [|c' s IH]; simpl; intros H i x Hg.
  - destruct i; discriminate.
  - apply andb_prop in H. destruct H as [Hc Hs].
    apply Ascii.eqb_eq in Hc. destruct i as [|i].
    + inversion Hg. congruence.
    + eapply IH; eauto.
Qed.

End StringFacts.

(* ================================================================== *)
(** ** Masking *)

Section Masking.

Lemma append_assoc (s t u : string) : (s ++ t) ++ u = s ++ (t ++ u).
Proof. induction s as [|c s IH]; simpl; congruence. Qed.

Lemma length_redacted s :
  12 < String.length s -> String.length (redacted s) = String.length s.
Proof.
  intros H. unfold redacted.
  rewrite !length_app, length_take, length_repeat_char, length_last. lia.
Qed.

Lemma take_redacted s :
  12 < String.length s -> Py.take 8 (redacted s) = Py.take 8 s.
Proof.
  intros H. unfold redacted. apply take_app_exact.
  rewrite length_take. lia.
Qed.

Lemma last_redacted s :
  12 < String.length s -> Py.last 4 (redacted s) = Py.last 4 s.
Proof.
  intros H. unfold Py.last at 1. rewrite length_redacted by exact H.
  unfold redacted. rewrite <- append_assoc. apply drop_app_exact.
  rewrite length_app, length_take, length_repeat_char. lia.
Qed.

Lemma middle_redacted s i :
  12 < String.length s -> 8 <= i < String.length s - 4 ->
  String.get i (redacted s) = Some star.
Proof.
  intros H Hi. unfold redacted.
  assert (L8 : String.length (Py.take 8 s) = 8) by (rewrite length_take; lia).
  rewrite get_app_r by lia. rewrite L8.
  rewrite get_app_l by (rewrite length_repeat_char; lia).
  apply get_repeat_char. lia.
Qed.

Lemma contract_of_long mask s :
  12 < String.length s -> mask s = redacted s -> mask_contract mask s.
Proof.
  intros H E. unfold mask_contract. rewrite E.
  split; [apply length_redacted; exact H|].
  split; [intros Hle; lia|].
  intros _. split; [reflexivity|].
  split; [apply take_redacted; exact H|].
  split; [apply last_redacted; exact H|].
  intros i Hi. apply middle_redacted; assumption.
Qed.

Lemma contract_of_short mask s :
  String.length s <= 12 ->
  mask s = Py.repeat_char star (String.length s) -> mask_contract mask s.
Proof.
  intros H E. unfold mask_contract. rewrite E.
  split; [apply length_repeat_char|].
  split; [|intros Hlt; lia].
  intros _ i c Hg.
  eapply get_all_char; [apply all_char_repeat | exact Hg].
Qed.

Lemma _mask_api_key_contract s : mask_contract _mask_api_key s.
Proof.
  destruct (Nat.leb_spec (String.length s) 12) as [Hle|Hgt].
  - apply contract_of_short; [exact Hle|].
    unfold _mask_api_key. apply Nat.leb_le in Hle. rewrite Hle. reflexivity.
  - apply contract_of_long; [exact Hgt|].
    unfold _mask_api_key, redacted.
    apply Nat.leb_gt in Hgt. rewrite Hgt. reflexivity.
Qed.

Lemma _mask_key_contract s : s <> EmptyString -> mask_contract _mask_key s.
Proof.
  intros Hne.
  assert (T : truthy s = true) by (destruct s; [congruence | reflexivity]).
  destruct (Nat.leb_spec (String.length s) 12) as [Hle|Hgt].
  - apply contract_of_short; [exact Hle|].
    unfold _mask_key. rewrite T. apply Nat.leb_le in Hle. rewrite Hle.
    reflexivity.
  - apply contract_of_long; [exact Hgt|].
    unfold _mask_key, redacted. rewrite T.
    apply Nat.leb_gt in Hgt. rewrite Hgt. reflexivity.
Qed.

Lemma _mask_key_empty : _mask_key EmptyString = "********".
Proof. reflexivity. Qed.

Lemma _mask_key_same_as_local s :
  s <> EmptyString -> _mask_key s = _mask_api_key s.
Proof.
  intros Hne. unfold _mask_key, _mask_api_key.
  destruct s as [|c s]; [congruence|]. reflexivity.
Qed.

End Masking.

(** C2 (as the code has it): the store's masker meets the masking contract on
    every string, the empty one included; the gateway client's masker meets it
    on every non-empty string and turns the empty string into eight stars. *)
Theorem masking_contract :
  (forall s, mask_contract _mask_api_key s)
  /\ (forall s, s <> EmptyString -> mask_contract _mask_key s)
  /\ _mask_key EmptyString = "********".
Proof.
  split; [exact _mask_api_key_contract|].
  split; [exact _mask_key_contract|exact _mask_key_empty].
Qed.

Lemma masking_contract_witness :
  Sample.secret <> EmptyString /\ mask_contract _mask_key Sample.secret.
Proof.
  split; [discriminate|].
  apply (proj1 (proj2 masking_contract)). discriminate.
Defined.

(** C2 (as stated) fails: the gateway client's masker does not keep the length
    of the empty string. *)
Lemma masking_contract_fails_on_empty :
  ~ mask_contract _mask_key EmptyString.
Proof.
  unfold mask_contract. intros [H _]. simpl in H. discriminate.
Qed.

Example mask_scenario :
  _mask_api_key "sk-abcdef1234567890" = "sk-abcde*******7890".
Proof. reflexivity. Qed.

(* ================================================================== *)
(** ** Queries on the table *)

(** Boolean tests of a query filter, read as propositions. *)
Ltac bools :=
  repeat match goal with
  | H : (_ && _)%bool = true |- _ => apply andb_prop in H; destruct H
  | H : (_ =? _) = true |- _ => apply String.eqb_eq in H
  | H : (_ =? _) = false |- _ => apply String.eqb_neq in H
  | H : negb _ = true |- _ => apply negb_true_iff in H
  | H : negb _ = false |- _ => apply negb_false_iff in H
  end.

Section Queries.

Lemma in_firstn {A : Type} n (l : list A) x : In x (firstn n l) -> In x l.
Proof.
  intros H. rewrite <- (firstn_skipn n l). apply in_or_app. now left.
Qed.

Lemma in_skipn {A : Type} n (l : list A) x : In x (skipn n l) -> In x l.
Proof.
  intros H. rewrite <- (firstn_skipn n l). apply in_or_app. now right.
Qed.

Lemma find_owned_some key_id uid db key :
  find (fun k => (id k =? key_id) && (user_id k =? uid)) db = Some key ->
  In key db /\ id key = key_id /\ user_id key = uid.
Proof.
  intros H. apply find_some in H. destruct H as [Hin Ht]. bools. auto.
Qed.

Lemma find_owned_none key_id uid db :
  find (fun k => (id k =? key_id) && (user_id k =? uid)) db = None ->
  ~ owned_row key_id uid db.
Proof.
  intros H (k & Hin & Hid & Hu).
  apply (find_none _ _ H) in Hin. subst.
  rewrite !String.eqb_refl in Hin. discriminate.
Qed.

Lemma owned_row_found key_id uid db :
  owned_row key_id uid db ->
  exists key,
    find (fun k => (id k =? key_id) && (user_id k =? uid)) db = Some key.
Proof.
  intros Ho.
  destruct (find (fun k => (id k =? key_id) && (user_id k =? uid)) db)
    as [key|] eqn:E; [eauto|].
  exfalso. eapply find_owned_none; eassumption.
Qed.

Lemma unique_ids_inj db k1 k2 :
  unique_ids db -> In k1 db -> In k2 db -> id k1 = id k2 -> k1 = k2.
Proof.
  unfold unique_ids. induction db as [|a db IH]; simpl; [tauto|].
  intros Hnd H1 H2 E. inversion Hnd as [|? ? Hnotin Hnd']; subst.
  destruct H1 as [->|H1], H2 as [->|H2]; auto.
  - exfalso. apply Hnotin. rewrite E. now apply in_map.
  - exfalso. apply Hnotin. rewrite <- E. now apply in_map.
Qed.

Lemma api_key_masked k : api_key (masked k) = _mask_api_key (api_key k).
Proof. reflexivity. Qed.

Lemma id_masked k : id (masked k) = id k.
Proof. reflexivity. Qed.

Lemma user_id_masked k : user_id (masked k) = user_id k.
Proof. reflexivity. Qed.

Lemma id_apply_update now u k : id (apply_update now u k) = id k.
Proof.
  unfold apply_update.
  destruct u as [[?|] [?|] [?|] [?|] [?|] [?|] [?|]]; reflexivity.
Qed.

Lemma user_id_apply_update now u k : user_id (apply_update now u k) = user_id k.
Proof.
  unfold apply_update.
  destruct u as [[?|] [?|] [?|] [?|] [?|] [?|] [?|]]; reflexivity.
Qed.

Lemma key_name_apply_update now u k :
  key_name (apply_update now u k) = get_or (uf_key_name u) (key_name k).
Proof.
  unfold apply_update.
  destruct u as [[?|] [?|] [?|] [?|] [?|] [?|] [?|]]; reflexivity.
Qed.

Lemma map_id_write_row pk key' db :
  id key' = pk -> map id (write_row pk key' db) = map id db.
Proof.
  intros E. unfold write_row. rewrite map_map. apply map_ext_in.
  intros k _. destruct (String.eqb_spec (id k) pk); congruence.
Qed.

Lemma in_write_row pk key' db k :
  In k (write_row pk key' db) <->
  (k = key' /\ exists k0, In k0 db /\ id k0 = pk) \/ (In k db /\ id k <> pk).
Proof.
  unfold write_row. rewrite in_map_iff. split.
  - intros (k0 & E & Hin). destruct (String.eqb_spec (id k0) pk); subst; eauto.
  - intros [[-> (k0 & Hin & E)] | [Hin Hne]].
    + exists k0. split; [|exact Hin]. apply String.eqb_eq in E. now rewrite E.
    + exists k. split; [|exact Hin]. apply String.eqb_neq in Hne. now rewrite Hne.
Qed.

End Queries.

(* ================================================================== *)
(** ** The local store keeps its invariants *)

Section Invariants.

Lemma wf_empty : wf [].
Proof.
  split; [constructor | intros k1 k2 []].
Qed.

Lemma create_key_wf uuid4 now uid f db r db' :
  create_key uuid4 now uid f db = (r, db') -> wf db -> wf db'.
Proof.
  unfold create_key. intros H [Hids Hnames].
  destruct (find _ db) as [k|] eqn:Ef; [inversion H; subst; now split|].
  destruct (existsb _ db) eqn:Ex; [inversion H; subst; now split|].
  inversion H; subst; clear H.
  assert (Hfresh : ~ In uuid4 (map id db)).
  { intros Hin. apply in_map_iff in Hin. destruct Hin as (k & E & Hin).
    assert (existsb (fun k => id k =? uuid4) db = true).
    { apply existsb_exists. exists k. split; [exact Hin|].
      now apply String.eqb_eq. }
    congruence. }
  split.
  - unfold unique_ids in *. rewrite map_app. simpl.
    apply NoDup_app; [exact Hids | repeat constructor; simpl; tauto |].
    intros x Hx [<-|[]]. exact (Hfresh Hx).
  - intros k1 k2 H1 H2 Eu En.
    apply in_app_iff in H1. apply in_app_iff in H2. simpl in H1, H2.
    destruct H1 as [H1|[<-|[]]], H2 as [H2|[<-|[]]]; simpl in *; auto.
    + pose proof (find_none _ _ Ef _ H1) as Hf. simpl in Hf.
      rewrite Eu, En, !String.eqb_refl in Hf. discriminate.
    + pose proof (find_none _ _ Ef _ H2) as Hf. simpl in Hf.
      rewrite <- Eu, <- En, !String.eqb_refl in Hf. discriminate.
Qed.

Lemma update_key_wf now key_id uid u db r db' :
  update_key now key_id uid u db = (r, db') -> wf db -> wf db'.
Proof.
  unfold update_key. intros H [Hids Hnames].
  destruct (find _ db) as [key|] eqn:Ef; [|inversion H; subst; now split].
  apply find_owned_some in Ef. destruct Ef as (Hin & Hid & Hu).
  set (key' := apply_update now u key) in *.
  assert (Hid' : id key' = key_id)
    by (unfold key'; now rewrite id_apply_update).
  assert (Hu' : user_id key' = uid)
    by (unfold key'; now rewrite user_id_apply_update).
  assert (Hfree :
    match uf_key_name u with
    | Some n =>
        find (fun k => (user_id k =? uid) && (key_name k =? n)
                       && negb (id k =? key_id)) db = None
    | None => True
    end -> wf (write_row key_id key' db)).
  { intros Hfree. split.
    - unfold unique_ids. now rewrite map_id_write_row.
    - intros k1 k2 H1 H2 Eu En.
      apply in_write_row in H1. apply in_write_row in H2.
      assert (Hclash : forall k, In k db -> id k <> key_id ->
                user_id k = uid -> key_name k = key_name key' -> False).
      { intros k Hk Hne Hku Hkn.
        unfold key' in Hkn. rewrite key_name_apply_update in Hkn.
        destruct (uf_key_name u) as [n|]; simpl in Hkn.
        - pose proof (find_none _ _ Hfree _ Hk) as Hf. simpl in Hf.
          rewrite Hku, Hkn, !String.eqb_refl in Hf. simpl in Hf.
          apply negb_false_iff, String.eqb_eq in Hf. contradiction.
        - apply Hne. rewrite <- Hid. apply Hnames; congruence. }
      destruct H1 as [[-> _]|[H1 N1]], H2 as [[-> _]|[H2 N2]]; auto.
      + exfalso. apply (Hclash k2); congruence.
      + exfalso. apply (Hclash k1); congruence. }
  destruct (uf_key_name u) as [n|].
  - destruct (find _ db) as [other|] eqn:Eo.
    + inversion H; subst. now split.
    + inversion H; subst. now apply Hfree.
  - inversion H; subst. now apply Hfree.
Qed.

Lemma delete_key_wf key_id uid db r db' :
  delete_key key_id uid db = (r, db') -> wf db -> wf db'.
Proof.
  unfold delete_key. intros H [Hids Hnames].
  destruct (find _ db) as [key|]; inversion H; subst; [|now split].
  split.
  - unfold unique_ids in *. clear - Hids.
    induction db as [|a db IH]; simpl; [constructor|].
    inversion Hids as [|? ? Hnotin Hnd]; subst.
    destruct (negb (id a =? id key)); simpl; [|now apply IH].
    constructor; [|now apply IH].
    intros Hin. apply Hnotin. apply in_map_iff in Hin.
    destruct Hin as (k & E & Hin). apply filter_In in Hin.
    rewrite <- E. apply in_map. tauto.
  - intros k1 k2 H1 H2. apply filter_In in H1. apply filter_In in H2.
    apply Hnames; tauto.
Qed.

End Invariants.

(* ================================================================== *)
(** ** Secrets leave the local store masked *)

Section SecretExposure.

Variable db : table.

Lemma shows_masked_intro k : In k db -> shows_masked db (masked k).
Proof. intros H. exists k. repeat split; auto. Qed.

Lemma create_key_raw uuid4 now uid f m db' :
  create_key uuid4 now uid f db = (Ok m, db') ->
  api_key m = cf_api_key f /\ In m db'.
Proof.
  unfold create_key. intros H.
  destruct (find _ db); [discriminate|].
  destruct (existsb _ db); [discriminate|].
  inversion H; subst; clear H. split; [reflexivity|].
  apply in_or_app. right. now left.
Qed.

Lemma get_key_by_id_masked key_id uid m :
  get_key_by_id key_id uid db = Some m -> shows_masked db m.
Proof.
  unfold get_key_by_id. intros H.
  destruct (find _ db) as [key|] eqn:Ef; [|discriminate].
  inversion H; subst. apply find_owned_some in Ef.
  apply shows_masked_intro. tauto.
Qed.

Lemma get_keys_by_user_id_masked uid skip limit m :
  In m (keys (get_keys_by_user_id uid skip limit db)) -> shows_masked db m.
Proof.
  simpl. intros H. apply in_map_iff in H. destruct H as (k & <- & Hin).
  apply in_firstn, in_skipn, filter_In in Hin.
  apply shows_masked_intro. tauto.
Qed.

Lemma get_keys_by_group_ids_masked op gids uid listed m :
  get_keys_by_group_ids op gids uid db = Ok listed ->
  In m listed -> shows_masked db m.
Proof.
  unfold get_keys_by_group_ids. destruct op as [overlap|e]; [|discriminate].
  intros [= <-] H.
  apply in_map_iff in H. destruct H as (k & <- & Hin).
  apply filter_In in Hin. destruct Hin as [Hin _].
  apply filter_In in Hin. apply shows_masked_intro. tauto.
Qed.

End SecretExposure.

Lemma update_key_masked now key_id uid u db m db' :
  update_key now key_id uid u db = (Ok (Some m), db') -> shows_masked db' m.
Proof.
  unfold update_key. intros H.
  destruct (find _ db) as [key|] eqn:Ef; [|discriminate].
  apply find_owned_some in Ef. destruct Ef as (Hin & Hid & Hu).
  assert (Hc : shows_masked (write_row key_id (apply_update now u key) db)
                 (masked (apply_update now u key))).
  { apply shows_masked_intro. apply in_write_row. left. split; eauto. }
  destruct (uf_key_name u) as [n|].
  - destruct (find _ db); [discriminate|]. inversion H; subst. exact Hc.
  - inversion H; subst. exact Hc.
Qed.

(** C1: the model [create_key] returns is the stored row, secret verbatim;
    every model returned by [get_key_by_id], [get_keys_by_user_id],
    [update_key] and [get_keys_by_group_ids] is a stored row whose secret has
    been replaced by its masked form, whoever asks. *)
Theorem secret_exposure (db : table) :
  (forall uuid4 now uid f m db',
      create_key uuid4 now uid f db = (Ok m, db') ->
      api_key m = cf_api_key f /\ In m db')
  /\ (forall key_id uid m,
      get_key_by_id key_id uid db = Some m -> shows_masked db m)
  /\ (forall uid skip limit m,
      In m (keys (get_keys_by_user_id uid skip limit db)) -> shows_masked db m)
  /\ (forall now key_id uid u m db',
      update_key now key_id uid u db = (Ok (Some m), db') -> shows_masked db' m)
  /\ (forall op gids uid listed m,
      get_keys_by_group_ids op gids uid db = Ok listed ->
      In m listed -> shows_masked db m).
Proof.
  split; [intros; eapply create_key_raw; eassumption|].
  split; [intros; eapply get_key_by_id_masked; eassumption|].
  split; [intros; eapply get_keys_by_user_id_masked; eassumption|].
  split; [intros; eapply update_key_masked; eassumption|].
  intros; eapply get_keys_by_group_ids_masked; eassumption.
Qed.

Lemma secret_exposure_witness :
  (api_key Sample.k1 = Sample.secret /\ In Sample.k1 [Sample.k1])
  /\ shows_masked [Sample.k1]
       (set_api_key "sk-abcde*******7890" Sample.k1).
Proof.
  split.
  - apply (proj1 (secret_exposure [])
             "key-1" 100%Z "u1" Sample.form1 Sample.k1 [Sample.k1]).
    reflexivity.
  - apply (proj1 (proj2 (secret_exposure [Sample.k1])) "key-1" "u1").
    reflexivity.
Defined.

(* ================================================================== *)
(** ** Ownership *)

Lemma not_owned_by_other db k requester :
  wf db -> In k db -> user_id k <> requester ->
  find (fun k0 => (id k0 =? id k) && (user_id k0 =? requester)) db = None.
Proof.
  intros [Hids _] Hin Hne.
  destruct (find _ db) as [k'|] eqn:Ef; [|reflexivity].
  apply find_owned_some in Ef. destruct Ef as (Hin' & Hid & Hu).
  assert (k' = k) by (eapply unique_ids_inj; eassumption).
  subst. contradiction.
Qed.

(** C3: on a record someone else owns, [get_key_by_id] finds nothing,
    [update_key] finds nothing and [delete_key] answers false, and the table is
    left as it was; the record's groups and its active flag play no part, so
    a shared active group changes none of the three answers. *)
Theorem ownership_isolation db k requester now u :
  wf db -> In k db -> user_id k <> requester ->
  get_key_by_id (id k) requester db = None
  /\ update_key now (id k) requester u db = (Ok None, db)
  /\ delete_key (id k) requester db = (Ok false, db).
Proof.
  intros Hwf Hin Hne.
  pose proof (not_owned_by_other db k requester Hwf Hin Hne) as Ef.
  unfold get_key_by_id, update_key, delete_key. rewrite Ef. auto.
Qed.

Lemma wf_sample : wf [Sample.k1].
Proof.
  split.
  - repeat constructor. simpl. tauto.
  - intros k1 k2 [<-|[]] [<-|[]] _ _. reflexivity.
Defined.

Lemma ownership_isolation_witness :
  get_key_by_id "key-1" "u2" [Sample.k1] = None
  /\ update_key 200 "key-1" "u2" Sample.switch_off [Sample.k1]
     = (Ok None, [Sample.k1])
  /\ delete_key "key-1" "u2" [Sample.k1] = (Ok false, [Sample.k1]).
Proof.
  apply (ownership_isolation [Sample.k1] Sample.k1 "u2" 200%Z Sample.switch_off).
  - exact wf_sample.
  - simpl. now left.
  - simpl. discriminate.
Defined.

(* ================================================================== *)
(** ** Deletion *)

Lemma delete_key_absent key_id uid db :
  ~ owned_row key_id uid db -> delete_key key_id uid db = (Ok false, db).
Proof.
  intros Hno. unfold delete_key.
  destruct (find _ db) as [key|] eqn:Ef; [|reflexivity].
  exfalso. apply Hno. apply find_owned_some in Ef. exists key. exact Ef.
Qed.

Lemma delete_key_present key_id uid db :
  owned_row key_id uid db ->
  delete_key key_id uid db
  = (Ok true, filter (fun k => negb (id k =? key_id)) db).
Proof.
  intros Ho. unfold delete_key.
  destruct (owned_row_found key_id uid db Ho) as [key Ef]. rewrite Ef.
  apply find_owned_some in Ef. destruct Ef as (_ & -> & _). reflexivity.
Qed.

Lemma no_row_after_delete key_id requester db :
  ~ owned_row key_id requester (filter (fun k => negb (id k =? key_id)) db).
Proof.
  intros (k & Hin & Hid & _). apply filter_In in Hin. destruct Hin as [_ Hb].
  rewrite Hid, String.eqb_refl in Hb. discriminate.
Qed.

(** C8: [delete_key] answers false and changes nothing when the requester owns
    no row with that id; it answers true exactly when the requester owns one,
    and then the row is gone and every later [delete_key] of the id, by anyone,
    answers false; it returns an answer in every case and raises in none. *)
Theorem delete_contract key_id uid db :
  (~ owned_row key_id uid db -> delete_key key_id uid db = (Ok false, db))
  /\ (owned_row key_id uid db ->
      exists db',
        delete_key key_id uid db = (Ok true, db')
        /\ (forall k, In k db' <-> In k db /\ id k <> key_id)
        /\ (forall requester, delete_key key_id requester db' = (Ok false, db')))
  /\ (fst (delete_key key_id uid db) = Ok true <-> owned_row key_id uid db)
  /\ (exists b db', delete_key key_id uid db = (Ok b, db')).
Proof.
  split; [apply delete_key_absent|].
  split.
  { intros Ho. eexists. split; [apply delete_key_present; exact Ho|].
    split.
    - intros k. rewrite filter_In, negb_true_iff, String.eqb_neq. tauto.
    - intros requester. apply delete_key_absent, no_row_after_delete. }
  split.
  { split.
    - intros H. unfold delete_key in H.
      destruct (find _ db) as [key|] eqn:Ef; [|discriminate].
      apply find_owned_some in Ef. exists key. exact Ef.
    - intros Ho. now rewrite (delete_key_present key_id uid db Ho). }
  unfold delete_key. destruct (find _ db); eauto.
Qed.

Lemma delete_contract_witness :
  exists db',
    delete_key "key-1" "u1" [Sample.k1] = (Ok true, db')
    /\ (forall k, In k db' <-> In k [Sample.k1] /\ id k <> "key-1")
    /\ (forall requester, delete_key "key-1" requester db' = (Ok false, db')).
Proof.
  apply (proj1 (proj2 (delete_contract "key-1" "u1" [Sample.k1]))).
  exists Sample.k1. simpl. auto.
Defined.

(* ================================================================== *)
(** ** Uniqueness of names *)

Lemma create_key_duplicate uuid4 now uid f db k :
  In k db -> user_id k = uid -> key_name k = cf_key_name f ->
  create_key uuid4 now uid f db
  = (Raise (ValueError ("Key name '" ++ cf_key_name f ++ "' already exists")), db).
Proof.
  intros Hin Hu Hn. unfold create_key.
  destruct (find _ db) as [k'|] eqn:Ef; [reflexivity|].
  pose proof (find_none _ _ Ef _ Hin) as Hf. simpl in Hf.
  rewrite Hu, Hn, !String.eqb_refl in Hf. discriminate.
Qed.

Lemma create_key_fresh uuid4 now uid f db :
  (forall k, In k db -> user_id k = uid -> key_name k <> cf_key_name f) ->
  ~ In uuid4 (map id db) ->
  exists m,
    create_key uuid4 now uid f db = (Ok m, (db ++ [m])%list)
    /\ user_id m = uid /\ key_name m = cf_key_name f
    /\ api_key m = cf_api_key f /\ id m = uuid4.
Proof.
  intros Hfree Hfresh. unfold create_key.
  destruct (find _ db) as [k'|] eqn:Ef.
  { apply find_some in Ef. destruct Ef as [Hin Ht]. bools.
    exfalso. eapply Hfree; eassumption. }
  destruct (existsb _ db) eqn:Ex.
  { apply existsb_exists in Ex. destruct Ex as (k & Hin & E). bools.
    exfalso. apply Hfresh. rewrite <- E. now apply in_map. }
  eexists. split; [reflexivity|]. simpl. auto.
Qed.

(** C6: of two creations in a row for one owner with one name, whichever
    comes first succeeds and the other raises the duplicate-name error and
    leaves the table as the first one left it. *)
Theorem create_unique_name db uid f1 f2 id1 id2 now1 now2 :
  cf_key_name f1 = cf_key_name f2 ->
  (forall k, In k db -> user_id k = uid -> key_name k <> cf_key_name f1) ->
  ~ In id1 (map id db) ->
  exists m db1,
    create_key id1 now1 uid f1 db = (Ok m, db1)
    /\ In m db1
    /\ create_key id2 now2 uid f2 db1
       = (Raise (ValueError ("Key name '" ++ cf_key_name f2 ++ "' already exists")),
          db1).
Proof.
  intros Hname Hfree Hfresh.
  destruct (create_key_fresh id1 now1 uid f1 db Hfree Hfresh)
    as (m & Hc & Hu & Hn & _ & _).
  exists m, (db ++ [m])%list.
  assert (Hin : In m (db ++ [m])) by (apply in_or_app; right; now left).
  split; [exact Hc|]. split; [exact Hin|].
  eapply create_key_duplicate; [exact Hin | exact Hu | congruence].
Qed.

Lemma create_unique_name_witness :
  exists m db1,
    create_key "key-1" 100 "u1" Sample.form1 [] = (Ok m, db1)
    /\ In m db1
    /\ create_key "key-2" 101 "u1" Sample.form1 db1
       = (Raise (ValueError "Key name 'k1' already exists"), db1).
Proof.
  apply (create_unique_name [] "u1" Sample.form1 Sample.form1
           "key-1" "key-2" 100%Z 101%Z).
  - reflexivity.
  - intros k [].
  - simpl. tauto.
Defined.

(* ================================================================== *)
(** ** Update *)

Section Update.

Variables (now : Z) (uid : string) (u : LiteLLMKeyUpdateForm).
Variables (db : table) (key : LiteLLMKey).
Hypothesis Hwf : wf db.
Hypothesis Hin : In key db.
Hypothesis Howner : user_id key = uid.

Lemma find_owned_row :
  find (fun k => (id k =? id key) && (user_id k =? uid)) db = Some key.
Proof.
  destruct (owned_row_found (id key) uid db) as [key' Ef].
  { exists key. auto. }
  rewrite Ef. f_equal.
  apply find_owned_some in Ef. destruct Ef as (Hin' & Hid & _).
  destruct Hwf as [Hids _]. eapply unique_ids_inj; eassumption.
Qed.








End Update.





(* ================================================================== *)
(** ** Listing what a requester may see *)

Section Accessible.

Lemma mem_In x l : Py.mem x l = true <-> In x l.
Proof.
  unfold Py.mem. rewrite existsb_exists. split.
  - intros (y & Hy & E). apply String.eqb_eq in E. now subst.
  - intros H. exists x. split; [exact H | apply String.eqb_refl].
Qed.

Lemma mem_false x l : Py.mem x l = false <-> ~ In x l.
Proof.
  rewrite <- mem_In. destruct (Py.mem x l); split; congruence.
Qed.

Lemma overlaps_shares groups gs :
  overlaps groups gs = true <-> shares_group groups gs.
Proof.
  unfold overlaps, shares_group. destruct groups as [l|].
  - rewrite existsb_exists. split.
    + intros (g & Hg & Hm). apply mem_In in Hm. eauto.
    + intros (l' & g & E & Hg & Hm). inversion E; subst.
      exists g. split; [exact Hg | now apply mem_In].
  - split; [discriminate|]. intros (l & g & E & _). discriminate.
Qed.

Lemma owner_is_true key_info uid :
  owner_is key_info uid = true <-> ki_user_id key_info = Some uid.
Proof.
  unfold owner_is. destruct (ki_user_id key_info) as [o|].
  - rewrite String.eqb_eq. split; congruence.
  - split; discriminate.
Qed.

Variables (gids : list string) (uid : string).

Lemma get_accessible_keys_exact data e :
  In e (get_accessible_keys uid gids (Ok (Some data))) <->
  exists k, In k data
            /\ (ki_user_id k = Some uid
                \/ shares_group (Some (get_or (ki_groups k) [])) gids)
            /\ e = mark_accessible uid k.
Proof.
  unfold get_accessible_keys. simpl. rewrite in_map_iff. split.
  - intros (k & <- & Hin). apply filter_In in Hin. destruct Hin as [Hin Hv].
    exists k. repeat split; auto.
    apply orb_prop in Hv. destruct Hv as [Hv|Hv].
    + left. now apply owner_is_true.
    + right. apply (overlaps_shares (Some _)). exact Hv.
  - intros (k & Hin & Hv & ->). exists k. split; [reflexivity|].
    apply filter_In. split; [exact Hin|].
    apply orb_true_iff. destruct Hv as [Hv|Hv].
    + left. now apply owner_is_true.
    + right. apply (overlaps_shares (Some _)) in Hv. exact Hv.
Qed.

End Accessible.

Lemma get_keys_by_group_ids_refused e gids uid db :
  get_keys_by_group_ids (Raise e) gids uid db = Raise e.
Proof. reflexivity. Qed.

(** On a database that refuses the operator, [GET /groups/accessible] is a
    500 for every authorised requester who has a group. *)
Lemma accessible_endpoint_refused dir e user db :
  check_litellm_access user = true ->
  get_user_groups dir user <> [] ->
  (forall c d, e <> HTTPException c d) ->
  get_accessible_litellm_keys dir (Raise e) user db
  = Raise (HTTPException 500 "Failed to retrieve accessible LiteLLM keys").
Proof.
  intros Hok Hg He. unfold get_accessible_litellm_keys. rewrite Hok. simpl.
  destruct (get_user_groups dir user) as [|g gs]; [congruence|].
  simpl. destruct e; try reflexivity. exfalso. eapply He. reflexivity.
Qed.

(** C4 (the code at the failing input): for owner [u1] of the active record
    [k1], with group [g1], the specification's listing holds [k1] masked;
    the store's query raises the database's refusal of [&&] on the JSON
    column, and [GET /groups/accessible] answers 500. *)
Theorem list_accessible_raises_on_json_column :
  listAccessible_spec ["g1"] "u1" [Sample.k1] = [masked Sample.k1]
  /\ get_keys_by_group_ids Sample.json_column ["g1"] "u1" [Sample.k1]
     = Raise (OtherException "ProgrammingError"
                "operator does not exist: json && unknown")
  /\ get_accessible_litellm_keys Sample.directory Sample.json_column
       Sample.u1 [Sample.k1]
     = Raise (HTTPException 500 "Failed to retrieve accessible LiteLLM keys").
Proof. repeat split; reflexivity. Qed.

(* ================================================================== *)
(** ** The router *)

Lemma invalid_groups_exact requested user_groups g :
  In g (invalid_groups_of requested user_groups) <->
  In g requested /\ ~ In g user_groups.
Proof.
  unfold invalid_groups_of.
  rewrite filter_In, negb_true_iff, mem_false. tauto.
Qed.

Lemma invalid_groups_nonempty requested user_groups :
  (exists g, In g requested /\ ~ In g user_groups) ->
  exists x rest, requested = x :: rest
    /\ exists y more, invalid_groups_of requested user_groups = y :: more.
Proof.
  intros (g & Hg & Hno).
  destruct requested as [|x rest]; [destruct Hg|].
  exists x, rest. split; [reflexivity|].
  destruct (invalid_groups_of (x :: rest) user_groups) as [|y more] eqn:E;
    [|eauto].
  exfalso.
  assert (Hi : In g (invalid_groups_of (x :: rest) user_groups))
    by (apply invalid_groups_exact; auto).
  rewrite E in Hi. destruct Hi.
Qed.

Section RouterFacts.

Variable dir : string -> res (list string).

Lemma get_user_groups_failure user e :
  dir (uid_of user) = Raise e -> get_user_groups dir user = [].
Proof. unfold get_user_groups. now intros ->. Qed.

Lemma denied_elsewhere user db :
  check_litellm_access user = false ->
  (forall key_id, get_litellm_key key_id user db = access_denied)
  /\ (forall uuid4 now f,
        create_litellm_key dir uuid4 now f user db = (access_denied, db))
  /\ (forall now key_id u,
        update_litellm_key dir now key_id u user db = (access_denied, db))
  /\ (forall key_id, delete_litellm_key key_id user db = (access_denied, db))
  /\ (forall op, get_accessible_litellm_keys dir op user db = access_denied).
Proof.
  intros Hd.
  unfold get_litellm_key, create_litellm_key, update_litellm_key,
    delete_litellm_key, get_accessible_litellm_keys.
  rewrite Hd. simpl. repeat split; reflexivity.
Qed.

Lemma get_litellm_keys_denied skip limit user db :
  check_litellm_access user = false ->
  get_litellm_keys skip limit user db
  = Raise (HTTPException HTTP_500_INTERNAL_SERVER_ERROR
             "Failed to retrieve LiteLLM keys").
Proof. intros Hd. unfold get_litellm_keys. rewrite Hd. reflexivity. Qed.

End RouterFacts.

(** At the router a duplicate name is a 400 and a record of someone else a
    404, the same answer as for a record that does not exist. *)
Lemma create_litellm_key_duplicate dir uuid4 now f user db k :
  check_litellm_access user = true -> cf_group_ids f = None ->
  In k db -> user_id k = uid_of user -> key_name k = cf_key_name f ->
  create_litellm_key dir uuid4 now f user db
  = (Raise (HTTPException 400
              ("Key name '" ++ cf_key_name f ++ "' already exists")), db).
Proof.
  intros Hok Hnone Hin Hu Hn. unfold create_litellm_key.
  rewrite Hok, Hnone. simpl negb. cbv iota.
  rewrite (create_key_duplicate uuid4 now (uid_of user) f db k Hin Hu Hn).
  reflexivity.
Qed.

Lemma foreign_record_not_found dir now u user db k :
  check_litellm_access user = true -> uf_group_ids u = None ->
  wf db -> In k db -> user_id k <> uid_of user ->
  get_litellm_key (id k) user db
  = Raise (HTTPException 404 "LiteLLM key not found")
  /\ update_litellm_key dir now (id k) u user db
     = (Raise (HTTPException 404 "LiteLLM key not found"), db)
  /\ delete_litellm_key (id k) user db
     = (Raise (HTTPException 404 "LiteLLM key not found"), db).
Proof.
  intros Hok Hnone Hwf Hin Hne.
  pose proof (not_owned_by_other db k (uid_of user) Hwf Hin Hne) as Ef.
  unfold get_litellm_key, update_litellm_key, delete_litellm_key,
    get_key_by_id, update_key, delete_key.
  rewrite Hok, Hnone, Ef. repeat split; reflexivity.
Qed.

(** C5: when an authorised caller asks [POST /] or [PUT /{key_id}] for a group
    list with a group the caller is not a member of, the endpoint answers 400,
    its detail lists the requested groups the caller is not a member of, those
    and no others, and the table is left as it was. *)
Theorem group_grant_validation dir uuid4 now key_id f u user db requested :
  check_litellm_access user = true ->
  (exists g, In g requested /\ ~ In g (get_user_groups dir user)) ->
  (forall g,
      In g (invalid_groups_of requested (get_user_groups dir user)) <->
      In g requested /\ ~ In g (get_user_groups dir user))
  /\ (cf_group_ids f = Some requested ->
      create_litellm_key dir uuid4 now f user db
      = (Raise (HTTPException 400
                  ("User is not a member of groups: "
                   ++ Py.join ", "
                        (invalid_groups_of requested (get_user_groups dir user)))),
         db))
  /\ (uf_group_ids u = Some requested ->
      update_litellm_key dir now key_id u user db
      = (Raise (HTTPException 400
                  ("User is not a member of groups: "
                   ++ Py.join ", "
                        (invalid_groups_of requested (get_user_groups dir user)))),
         db)).
Proof.
  intros Hok Hbad.
  split; [intros g; apply invalid_groups_exact|].
  destruct (invalid_groups_nonempty requested _ Hbad)
    as (x & rest & -> & y & more & E).
  split; intros Hreq.
  - unfold create_litellm_key. rewrite Hok, Hreq. simpl negb. cbv iota.
    rewrite E. reflexivity.
  - unfold update_litellm_key. rewrite Hok, Hreq. simpl negb. cbv iota.
    rewrite E. reflexivity.
Qed.

Lemma group_grant_validation_witness :
  create_litellm_key Sample.directory "key-2" 100
    (mkCreateForm "k2" Sample.secret "api_key" (Some ["g1"; "g2"; "g3"]) None None)
    Sample.u1 [Sample.k1]
  = (Raise (HTTPException 400 "User is not a member of groups: g2, g3"),
     [Sample.k1]).
Proof.
  assert (Hbad : exists g, In g ["g1"; "g2"; "g3"]
                           /\ ~ In g (get_user_groups Sample.directory Sample.u1)).
  { exists "g2". split; [simpl; auto|].
    simpl. intros [E|[]]. discriminate E. }
  apply (proj1 (proj2 (group_grant_validation Sample.directory "key-2" 100%Z
           "key-1"
           (mkCreateForm "k2" Sample.secret "api_key" (Some ["g1"; "g2"; "g3"])
              None None)
           Sample.no_change Sample.u1 [Sample.k1] ["g1"; "g2"; "g3"]
           eq_refl Hbad))).
  reflexivity.
Defined.

(** C9 (the code at the failing input): for a user whose role is outside the
    allow-set, [GET /] answers 500 where [GET /{key_id}] answers 403. *)
Theorem list_endpoint_turns_denial_into_500 :
  check_litellm_access Sample.pending = false
  /\ get_litellm_keys 0 100 Sample.pending [Sample.k1]
     = Raise (HTTPException 500 "Failed to retrieve LiteLLM keys")
  /\ get_litellm_key "key-1" Sample.pending [Sample.k1]
     = Raise (HTTPException 403 "Access denied to LiteLLM key management").
Proof. repeat split; reflexivity. Qed.

(** C10: for an authorised requester whose group lookup gives no group, or
    fails, [GET /groups/accessible] answers the empty list whatever the table
    holds, the requester's own records included. *)
Theorem no_groups_no_keys dir op user db :
  check_litellm_access user = true ->
  (dir (uid_of user) = Ok [] \/ exists e, dir (uid_of user) = Raise e) ->
  get_user_groups dir user = []
  /\ get_accessible_litellm_keys dir op user db = Ok [].
Proof.
  intros Hok Hdir.
  assert (E : get_user_groups dir user = []).
  { unfold get_user_groups. destruct Hdir as [-> | [e ->]]; reflexivity. }
  split; [exact E|].
  unfold get_accessible_litellm_keys. rewrite Hok, E. reflexivity.
Qed.

Lemma no_groups_no_keys_witness :
  In Sample.k1 [Sample.k1] /\ user_id Sample.k1 = uid_of Sample.u1
  /\ get_accessible_litellm_keys Sample.broken_directory Sample.json_column
       Sample.u1 [Sample.k1]
     = Ok [].
Proof.
  split; [now left|]. split; [reflexivity|].
  apply (proj2 (no_groups_no_keys Sample.broken_directory Sample.json_column
                  Sample.u1 [Sample.k1] eq_refl
                  (or_intror (ex_intro _ _ eq_refl)))).
Defined.

(* ================================================================== *)
(** ** More on masking *)

Lemma mask_of_stars n :
  n <= 12 -> _mask_api_key (Py.repeat_char star n) = Py.repeat_char star n.
Proof.
  intros Hn. unfold _mask_api_key. rewrite length_repeat_char.
  apply Nat.leb_le in Hn. now rewrite Hn.
Qed.

Lemma redacted_redacted s :
  12 < String.length s -> redacted (redacted s) = redacted s.
Proof.
  intros H. unfold redacted at 1.
  rewrite take_redacted, last_redacted, length_redacted by exact H.
  reflexivity.
Qed.

Lemma _mask_api_key_cases s :
  (String.length s <= 12
   /\ _mask_api_key s = Py.repeat_char star (String.length s))
  \/ (12 < String.length s /\ _mask_api_key s = redacted s).
Proof.
  unfold _mask_api_key, redacted.
  destruct (Nat.leb_spec (String.length s) 12) as [Hle|Hgt]; [left|right];
    split; auto.
Qed.

Lemma _mask_api_key_idempotent s :
  _mask_api_key (_mask_api_key s) = _mask_api_key s.
Proof.
  destruct (_mask_api_key_cases s) as [[Hle E]|[Hgt E]]; rewrite E.
  - apply mask_of_stars. exact Hle.
  - destruct (_mask_api_key_cases (redacted s)) as [[Hle' _]|[_ E']].
    + rewrite length_redacted in Hle' by exact Hgt. lia.
    + rewrite E'. apply redacted_redacted. exact Hgt.
Qed.

Lemma _mask_key_nonempty s : _mask_key s <> EmptyString.
Proof.
  destruct s as [|c s]; [discriminate|].
  rewrite _mask_key_same_as_local by discriminate.
  intros E.
  pose proof (proj1 (_mask_api_key_contract (String c s))) as L.
  rewrite E in L. simpl in L. discriminate.
Qed.

(** X1: masking a masked secret changes nothing, with the store's masker and
    with the gateway client's. *)
Theorem masking_idempotent s :
  _mask_api_key (_mask_api_key s) = _mask_api_key s
  /\ _mask_key (_mask_key s) = _mask_key s.
Proof.
  split; [apply _mask_api_key_idempotent|].
  destruct s as [|c s]; [reflexivity|].
  rewrite (_mask_key_same_as_local (String c s)) by discriminate.
  rewrite _mask_key_same_as_local.
  - apply _mask_api_key_idempotent.
  - rewrite <- (_mask_key_same_as_local (String c s)) by discriminate.
    apply _mask_key_nonempty.
Qed.

(** X2: two secrets of one length that agree on their first eight and their
    last four characters have the same masked form under both maskers, so
    nothing else of a secret reaches a reader. *)
Theorem masking_hides_the_middle s t :
  same_outline s t ->
  _mask_api_key s = _mask_api_key t /\ _mask_key s = _mask_key t.
Proof.
  intros (HL & HT & HD).
  assert (E : _mask_api_key s = _mask_api_key t).
  { unfold _mask_api_key. rewrite HL, HT, HD. reflexivity. }
  split; [exact E|].
  destruct s as [|c s], t as [|d t]; try discriminate; [reflexivity|].
  rewrite !_mask_key_same_as_local by discriminate. exact E.
Qed.

Lemma masking_hides_the_middle_witness :
  "sk-abcdeXYZXYZX7890" <> Sample.secret
  /\ _mask_api_key "sk-abcdeXYZXYZX7890" = _mask_api_key Sample.secret
  /\ _mask_key "sk-abcdeXYZXYZX7890" = _mask_key Sample.secret.
Proof.
  split; [discriminate|].
  apply (masking_hides_the_middle "sk-abcdeXYZXYZX7890" Sample.secret).
  repeat split; reflexivity.
Defined.

(* ================================================================== *)
(** ** Pages of a listing *)

Section Pages.

Variables (uid : string) (db : table).

Lemma firstn_plus {A : Type} a b : forall l : list A,
  firstn (a + b) l = (firstn a l ++ firstn b (skipn a l))%list.
Proof.
  induction a as [|a IH]; intros [|x l]; simpl; auto.
  - now destruct b.
  - now rewrite IH.
Qed.

Lemma page_owned skip limit m :
  In m (page uid skip limit db) -> user_id m = uid.
Proof.
  unfold page. simpl. intros H.
  apply in_map_iff in H. destruct H as (k & <- & Hin).
  apply in_firstn, in_skipn, filter_In in Hin. destruct Hin as [_ Hu].
  rewrite user_id_masked. now apply String.eqb_eq.
Qed.

Lemma page_length skip limit :
  List.length (page uid skip limit db)
  = Nat.min limit (total (get_keys_by_user_id uid skip limit db) - skip).
Proof.
  unfold page. simpl. now rewrite length_map, length_firstn, length_skipn.
Qed.

Lemma page_concat skip a b :
  (page uid skip a db ++ page uid (skip + a) b db)%list
  = page uid skip (a + b) db.
Proof.
  unfold page. simpl. rewrite <- map_app. f_equal.
  rewrite firstn_plus, skipn_skipn, (Nat.add_comm skip a). reflexivity.
Qed.

End Pages.

Lemma owned_count uid db :
  List.length (filter (fun k => user_id k =? uid) db)
  = count_occ string_dec (map user_id db) uid.
Proof.
  induction db as [|k db IH]; simpl; [reflexivity|].
  destruct (String.eqb_spec (user_id k) uid) as [E|N];
    destruct (string_dec (user_id k) uid) as [E'|N']; try contradiction;
    simpl; now rewrite IH.
Qed.

Lemma page_rows uid skip limit db m :
  In m (page uid skip limit db) ->
  exists k, In k db /\ user_id k = uid /\ m = masked k.
Proof.
  unfold page. simpl. intros H.
  apply in_map_iff in H. destruct H as (k & <- & Hin).
  apply in_firstn, in_skipn, filter_In in Hin. destruct Hin as [Hin Hu].
  exists k. repeat split; [exact Hin | now apply String.eqb_eq].
Qed.

(** X3: for an offset and a limit that are not negative, the [total] of a
    listing is the number of rows of the table that belong to the owner asked
    for, whatever the page; every entry of the page is one of the owner's
    rows, masked; the page has [min limit (max 0 (total - skip))] entries;
    and the page from the start with a limit of at least the total holds the
    owner's rows, each once, in some order. *)
Theorem listing_page_shape uid (skip limit : Z) db :
  (0 <= skip)%Z -> (0 <= limit)%Z ->
  total (get_keys_by_user_id uid (Z.to_nat skip) (Z.to_nat limit) db)
  = count_occ string_dec (map user_id db) uid
  /\ (forall m,
        In m (page uid (Z.to_nat skip) (Z.to_nat limit) db) ->
        exists k, In k db /\ user_id k = uid /\ m = masked k)
  /\ Z.of_nat (List.length (page uid (Z.to_nat skip) (Z.to_nat limit) db))
     = Z.min limit
         (Z.max 0 (Z.of_nat (count_occ string_dec (map user_id db) uid) - skip))
  /\ (skip = 0%Z ->
      (Z.of_nat (count_occ string_dec (map user_id db) uid) <= limit)%Z ->
      Permutation (page uid (Z.to_nat skip) (Z.to_nat limit) db)
        (map masked (filter (fun k => user_id k =? uid) db))).
Proof.
  intros Hs Hl.
  split; [simpl; apply owned_count|].
  split; [apply page_rows|].
  split.
  - rewrite page_length. simpl total. rewrite owned_count. lia.
  - intros -> Hall. unfold page. simpl.
    rewrite firstn_all2; [apply Permutation_refl|].
    rewrite owned_count. lia.
Qed.

Lemma listing_page_shape_witness :
  total (get_keys_by_user_id "u1" 0 10 [Sample.k1; Demo.k2]) = 1
  /\ Permutation (page "u1" 0 10 [Sample.k1; Demo.k2]) [masked Sample.k1].
Proof.
  pose proof (listing_page_shape "u1" 0%Z 10%Z [Sample.k1; Demo.k2]
                ltac:(lia) ltac:(lia)) as (Ht & _ & _ & Hp).
  split; [exact Ht|].
  apply Hp; [reflexivity | simpl; lia].
Defined.

(** X4: for offsets and limits that are not negative, on one table, the
    page [(skip, a)] followed by the page [(skip + a, b)] is the page
    [(skip, a + b)]: pages in a row neither drop nor repeat a record. *)
Theorem listing_pages_concatenate uid (skip a b : Z) db :
  (0 <= skip)%Z -> (0 <= a)%Z -> (0 <= b)%Z ->
  (page uid (Z.to_nat skip) (Z.to_nat a) db
   ++ page uid (Z.to_nat (skip + a)) (Z.to_nat b) db)%list
  = page uid (Z.to_nat skip) (Z.to_nat (a + b)) db.
Proof.
  intros Hs Ha Hb. rewrite !Z2Nat.inj_add by assumption. apply page_concat.
Qed.

Lemma listing_pages_concatenate_witness :
  (page "u1" 0 1 [Sample.k1; Demo.k2] ++ page "u1" 1 1 [Sample.k1; Demo.k2])%list
  = page "u1" 0 2 [Sample.k1; Demo.k2].
Proof.
  apply (listing_pages_concatenate "u1" 0%Z 1%Z 1%Z [Sample.k1; Demo.k2]);
    lia.
Defined.

(* ================================================================== *)
(** ** How the store's operations compose *)

Section Composition.

Lemma find_app {A : Type} (p : A -> bool) (l l' : list A) :
  find p (l ++ l')
  = match find p l with Some x => Some x | None => find p l' end.
Proof.
  induction l as [|x l IH]; simpl; [reflexivity|].
  destruct (p x); [reflexivity | exact IH].
Qed.

Lemma filter_all {A : Type} (p : A -> bool) (l : list A) :
  (forall x, In x l -> p x = true) -> filter p l = l.
Proof.
  induction l as [|x l IH]; simpl; intros H; [reflexivity|].
  rewrite (H x (or_introl eq_refl)). f_equal. apply IH. auto.
Qed.

Lemma create_key_ok uuid4 now uid f db m db' :
  create_key uuid4 now uid f db = (Ok m, db') ->
  db' = (db ++ [m])%list
  /\ m = mkLiteLLMKey uuid4 uid (cf_key_name f) (cf_api_key f)
           (cf_key_type f) (cf_group_ids f) true (cf_description f)
           (cf_metadata f) now now None
  /\ (forall k, In k db -> id k <> uuid4).
Proof.
  unfold create_key. intros H.
  destruct (find _ db); [discriminate|].
  destruct (existsb _ db) eqn:Ex; [discriminate|].
  inversion H; subst; clear H. repeat split.
  intros k Hin E.
  assert (existsb (fun k0 => id k0 =? uuid4) db = true); [|congruence].
  apply existsb_exists. exists k. split; [exact Hin|]. now apply String.eqb_eq.
Qed.

Lemma find_fresh_none key_id uid db :
  (forall k, In k db -> id k <> key_id) ->
  find (fun k => (id k =? key_id) && (user_id k =? uid)) db = None.
Proof.
  intros Hfresh. destruct (find _ db) as [k|] eqn:Ef; [|reflexivity].
  apply find_owned_some in Ef. destruct Ef as (Hin & Hid & _).
  exfalso. exact (Hfresh k Hin Hid).
Qed.

Lemma find_write_row key_id uid key' : forall db,
  (exists k0, In k0 db /\ id k0 = key_id) ->
  id key' = key_id -> user_id key' = uid ->
  find (fun k => (id k =? key_id) && (user_id k =? uid))
       (write_row key_id key' db) = Some key'.
Proof.
  induction db as [|k db IH]; intros (k0 & Hin & E) Hid Hu;
    [destruct Hin|].
  simpl. destruct (String.eqb_spec (id k) key_id) as [Ek|Nk].
  - rewrite Hid, Hu, !String.eqb_refl. reflexivity.
  - apply String.eqb_neq in Nk. rewrite Nk. simpl.
    apply IH; auto. destruct Hin as [->|Hin].
    + apply String.eqb_neq in Nk. contradiction.
    + eauto.
Qed.

Lemma find_write_row_other key_id key' other who : forall db,
  id key' = key_id -> other <> key_id ->
  find (fun k => (id k =? other) && (user_id k =? who))
       (write_row key_id key' db)
  = find (fun k => (id k =? other) && (user_id k =? who)) db.
Proof.
  intros db Hid Hne. induction db as [|k db IH]; [reflexivity|].
  simpl. destruct (String.eqb_spec (id k) key_id) as [Ek|Nk].
  - assert (E1 : (id key' =? other) = false)
      by (apply String.eqb_neq; congruence).
    assert (E2 : (id k =? other) = false)
      by (apply String.eqb_neq; congruence).
    rewrite E1, E2. simpl. exact IH.
  - destruct ((id k =? other) && (user_id k =? who)); [reflexivity|exact IH].
Qed.

Lemma find_filter_other key_id other who : forall db,
  other <> key_id ->
  find (fun k => (id k =? other) && (user_id k =? who))
       (filter (fun k => negb (id k =? key_id)) db)
  = find (fun k => (id k =? other) && (user_id k =? who)) db.
Proof.
  intros db Hne. induction db as [|k db IH]; [reflexivity|].
  simpl. destruct (String.eqb_spec (id k) key_id) as [Ek|Nk]; simpl.
  - assert (E : (id k =? other) = false)
      by (apply String.eqb_neq; congruence).
    rewrite E. simpl. exact IH.
  - destruct ((id k =? other) && (user_id k =? who)); [reflexivity|exact IH].
Qed.

Lemma update_key_cases now key_id uid u db :
  update_key now key_id uid u db = (Ok None, db)
  \/ (exists msg, update_key now key_id uid u db = (Raise (ValueError msg), db))
  \/ exists key,
       In key db /\ id key = key_id /\ user_id key = uid
       /\ update_key now key_id uid u db
          = (Ok (Some (masked (apply_update now u key))),
             write_row key_id (apply_update now u key) db).
Proof.
  unfold update_key.
  destruct (find _ db) as [key|] eqn:Ef; [|now left].
  apply find_owned_some in Ef. destruct Ef as (Hin & Hid & Hu).
  right. destruct (uf_key_name u) as [n|].
  - destruct (find _ db); [left; eauto|]. right. exists key. auto.
  - right. exists key. auto.
Qed.

Lemma update_key_table now key_id uid u db :
  snd (update_key now key_id uid u db) = db
  \/ exists key,
       In key db /\ id key = key_id /\ user_id key = uid
       /\ update_key now key_id uid u db
          = (Ok (Some (masked (apply_update now u key))),
             write_row key_id (apply_update now u key) db).
Proof.
  destruct (update_key_cases now key_id uid u db) as [E|[[msg E]|H]];
    [left; now rewrite E | left; now rewrite E | right; exact H].
Qed.

Lemma delete_key_table key_id uid db :
  snd (delete_key key_id uid db) = db
  \/ (owned_row key_id uid db
      /\ delete_key key_id uid db
         = (Ok true, filter (fun k => negb (id k =? key_id)) db)).
Proof.
  unfold delete_key.
  destruct (find _ db) as [key|] eqn:Ef; [|now left].
  apply find_owned_some in Ef. destruct Ef as (Hin & Hid & Hu).
  right. split; [exists key; auto|]. now rewrite Hid.
Qed.

End Composition.

(** X5: a record that [create_key] has stored can be read back by its owner,
    masked, and deleting it gives back the table as it was before. *)
Theorem create_round_trip uuid4 now uid f db m db' :
  create_key uuid4 now uid f db = (Ok m, db') ->
  get_key_by_id (id m) uid db' = Some (masked m)
  /\ api_key (masked m) = _mask_api_key (cf_api_key f)
  /\ delete_key (id m) uid db' = (Ok true, db).
Proof.
  intros H. apply create_key_ok in H. destruct H as (-> & Em & Hfresh).
  assert (Hid : id m = uuid4) by (rewrite Em; reflexivity).
  assert (Hu : user_id m = uid) by (rewrite Em; reflexivity).
  assert (Ef : find (fun k => (id k =? id m) && (user_id k =? uid))
                 (db ++ [m]) = Some m).
  { rewrite find_app, find_fresh_none by (rewrite Hid; exact Hfresh).
    simpl. now rewrite Hu, !String.eqb_refl. }
  split; [unfold get_key_by_id; now rewrite Ef|].
  split; [rewrite Em; reflexivity|].
  unfold delete_key. rewrite Ef.
  rewrite filter_app. simpl. rewrite String.eqb_refl. simpl.
  rewrite app_nil_r, filter_all; [reflexivity|].
  intros k Hin. apply negb_true_iff, String.eqb_neq.
  rewrite Hid. now apply Hfresh.
Qed.

Lemma create_round_trip_witness :
  get_key_by_id "key-1" "u1" [Sample.k1] = Some (masked Sample.k1)
  /\ api_key (masked Sample.k1) = _mask_api_key Sample.secret
  /\ delete_key "key-1" "u1" [Sample.k1] = (Ok true, []).
Proof.
  apply (create_round_trip "key-1" 100%Z "u1" Sample.form1 []
           Sample.k1 [Sample.k1]).
  reflexivity.
Defined.

(** X6: what [update_key] returns is what the owner reads back afterwards
    with [get_key_by_id]. *)
Theorem update_then_get now key_id uid u db m db' :
  update_key now key_id uid u db = (Ok (Some m), db') ->
  get_key_by_id key_id uid db' = Some m.
Proof.
  intros H.
  destruct (update_key_cases now key_id uid u db)
    as [E|[[msg E]|(key & Hin & Hid & Hu & E)]];
    rewrite E in H; try discriminate.
  injection H as Hm Hdb. rewrite <- Hm, <- Hdb.
  unfold get_key_by_id. rewrite (find_write_row key_id uid); eauto.
  - rewrite id_apply_update. exact Hid.
  - rewrite user_id_apply_update. exact Hu.
Qed.

Lemma update_then_get_witness :
  get_key_by_id "key-1" "u1" [Sample.k1_off]
  = Some (masked Sample.k1_off).
Proof.
  apply (update_then_get 100%Z "key-1" "u1" Sample.switch_off [Sample.k1]
           (masked Sample.k1_off) [Sample.k1_off]).
  reflexivity.
Defined.

(** X7: creating, updating or deleting one record leaves what anyone reads
    with [get_key_by_id] under any other id as it was. *)
Theorem other_ids_untouched key_id other who uid now db :
  other <> key_id ->
  (forall f, get_key_by_id other who (snd (create_key key_id now uid f db))
             = get_key_by_id other who db)
  /\ (forall u, get_key_by_id other who (snd (update_key now key_id uid u db))
                = get_key_by_id other who db)
  /\ get_key_by_id other who (snd (delete_key key_id uid db))
     = get_key_by_id other who db.
Proof.
  intros Hne. split; [|split].
  - intros f. unfold create_key.
    destruct (find _ db); [reflexivity|].
    destruct (existsb _ db); [reflexivity|].
    unfold get_key_by_id. simpl snd. rewrite find_app.
    destruct (find _ db); [reflexivity|]. simpl.
    apply String.eqb_neq in Hne. rewrite String.eqb_sym in Hne.
    rewrite Hne. reflexivity.
  - intros u.
    destruct (update_key_table now key_id uid u db)
      as [->|(key & _ & Hid & _ & ->)]; [reflexivity|].
    unfold get_key_by_id. simpl snd. rewrite find_write_row_other; auto.
    rewrite id_apply_update. exact Hid.
  - destruct (delete_key_table key_id uid db) as [->|[_ ->]]; [reflexivity|].
    unfold get_key_by_id. simpl snd. now rewrite find_filter_other.
Qed.

Lemma other_ids_untouched_witness :
  get_key_by_id "key-2" "u2"
    (snd (delete_key "key-1" "u1" [Sample.k1; Demo.k2]))
  = get_key_by_id "key-2" "u2" [Sample.k1; Demo.k2].
Proof.
  apply (other_ids_untouched "key-1" "key-2" "u2" "u1" 0%Z
           [Sample.k1; Demo.k2]).
  discriminate.
Defined.

(** X8: in a well-formed table the owner reads every record of theirs by its
    id, switched off or not, and the router hands it out masked. *)
Theorem owner_reads_own_record db k user :
  wf db -> In k db -> uid_of user = user_id k ->
  get_key_by_id (id k) (user_id k) db = Some (masked k)
  /\ (check_litellm_access user = true ->
      get_litellm_key (id k) user db = Ok (masked k)).
Proof.
  intros Hwf Hin Hu.
  assert (E : get_key_by_id (id k) (user_id k) db = Some (masked k)).
  { unfold get_key_by_id.
    now rewrite (find_owned_row (user_id k) db k Hwf Hin eq_refl). }
  split; [exact E|].
  intros Hok. unfold get_litellm_key. rewrite Hok, Hu, E. reflexivity.
Qed.

Lemma owner_reads_own_record_witness :
  get_key_by_id "key-1" "u1" [Sample.k1] = Some (masked Sample.k1)
  /\ (check_litellm_access Sample.u1 = true ->
      get_litellm_key "key-1" Sample.u1 [Sample.k1] = Ok (masked Sample.k1)).
Proof.
  apply (owner_reads_own_record [Sample.k1] Sample.k1 Sample.u1 wf_sample).
  - now left.
  - reflexivity.
Defined.

Lemma delete_key_cases key_id uid db :
  delete_key key_id uid db = (Ok false, db)
  \/ (owned_row key_id uid db
      /\ delete_key key_id uid db
         = (Ok true, filter (fun k => negb (id k =? key_id)) db)).
Proof.
  unfold delete_key.
  destruct (find _ db) as [key|] eqn:Ef; [|now left].
  apply find_owned_some in Ef. destruct Ef as (Hin & Hid & Hu).
  right. split; [exists key; auto|]. now rewrite Hid.
Qed.

(** X9: after a deletion that answered true, no reader finds the id any
    more: not by [get_key_by_id], not on a page of a listing and not among
    the accessible keys. *)
Theorem deleted_record_is_gone key_id uid db db' :
  delete_key key_id uid db = (Ok true, db') ->
  (forall who, get_key_by_id key_id who db' = None)
  /\ (forall who skip limit m,
        In m (page who skip limit db') -> id m <> key_id)
  /\ (forall op gids who listed m,
        get_keys_by_group_ids op gids who db' = Ok listed ->
        In m listed -> id m <> key_id).
Proof.
  intros H.
  destruct (delete_key_cases key_id uid db) as [E|[_ E]];
    rewrite E in H; [discriminate|].
  injection H as <-.
  assert (Hgone : forall k,
            In k (filter (fun k0 => negb (id k0 =? key_id)) db) ->
            id k <> key_id).
  { intros k Hk. apply filter_In in Hk. destruct Hk as [_ Hb].
    now apply negb_true_iff, String.eqb_neq in Hb. }
  split; [|split].
  - intros who. unfold get_key_by_id.
    destruct (find _ _) as [k|] eqn:Ef; [|reflexivity].
    apply find_owned_some in Ef. destruct Ef as (Hk & Hid & _).
    exfalso. exact (Hgone k Hk Hid).
  - intros who skip limit m Hm. unfold page in Hm. simpl in Hm.
    apply in_map_iff in Hm. destruct Hm as (k & <- & Hk).
    apply in_firstn, in_skipn, filter_In in Hk.
    rewrite id_masked. apply Hgone. tauto.
  - intros op gids who listed m Hl Hm. unfold get_keys_by_group_ids in Hl.
    destruct op as [overlap|e]; [|discriminate]. injection Hl as <-.
    apply in_map_iff in Hm. destruct Hm as (k & <- & Hk).
    apply filter_In in Hk. destruct Hk as [Hk _].
    apply filter_In in Hk. rewrite id_masked. apply Hgone. tauto.
Qed.

Lemma deleted_record_is_gone_witness :
  (forall who, get_key_by_id "key-1" who [Demo.k2] = None)
  /\ (forall who skip limit m,
        In m (page who skip limit [Demo.k2]) -> id m <> "key-1")
  /\ (forall op gids who listed m,
        get_keys_by_group_ids op gids who [Demo.k2] = Ok listed ->
        In m listed -> id m <> "key-1").
Proof.
  apply (deleted_record_is_gone "key-1" "u1" [Sample.k1; Demo.k2] [Demo.k2]).
  reflexivity.
Defined.

(* ================================================================== *)
(** ** One owner's operations and another owner's listing *)

Section Isolation.

Variables (uid other : string).
Hypothesis Hother : other <> uid.

Lemma filter_owner_write_row key_id key' : forall db,
  user_id key' = uid ->
  (forall k, In k db -> id k = key_id -> user_id k = uid) ->
  filter (fun k => user_id k =? other) (write_row key_id key' db)
  = filter (fun k => user_id k =? other) db.
Proof.
  intros db Hu. induction db as [|k db IH]; intros Hown; [reflexivity|].
  simpl. destruct (String.eqb_spec (id k) key_id) as [Ek|Nk].
  - assert (E1 : (user_id key' =? other) = false)
      by (apply String.eqb_neq; congruence).
    assert (E2 : (user_id k =? other) = false).
    { apply String.eqb_neq. rewrite (Hown k (or_introl eq_refl) Ek).
      congruence. }
    rewrite E1, E2. apply IH. intros k0 Hk0. apply Hown. now right.
  - destruct (user_id k =? other); [f_equal|];
      apply IH; intros k0 Hk0; apply Hown; now right.
Qed.

Lemma filter_owner_delete key_id : forall db,
  (forall k, In k db -> id k = key_id -> user_id k = uid) ->
  filter (fun k => user_id k =? other)
         (filter (fun k => negb (id k =? key_id)) db)
  = filter (fun k => user_id k =? other) db.
Proof.
  induction db as [|k db IH]; intros Hown; [reflexivity|].
  simpl. destruct (String.eqb_spec (id k) key_id) as [Ek|Nk]; simpl.
  - assert (E2 : (user_id k =? other) = false).
    { apply String.eqb_neq. rewrite (Hown k (or_introl eq_refl) Ek).
      congruence. }
    rewrite E2. apply IH. intros k0 Hk0. apply Hown. now right.
  - destruct (user_id k =? other); [f_equal|];
      apply IH; intros k0 Hk0; apply Hown; now right.
Qed.

Lemma listing_of_owned db db' skip limit :
  filter (fun k => user_id k =? other) db'
  = filter (fun k => user_id k =? other) db ->
  get_keys_by_user_id other skip limit db'
  = get_keys_by_user_id other skip limit db.
Proof. unfold get_keys_by_user_id. now intros ->. Qed.

Lemma sole_owner_of_id db key key_id :
  unique_ids db -> In key db -> id key = key_id -> user_id key = uid ->
  forall k, In k db -> id k = key_id -> user_id k = uid.
Proof.
  intros Hids Hin Hid Hu k Hk Ek.
  assert (k = key) by (eapply unique_ids_inj; eauto; congruence).
  now subst.
Qed.

End Isolation.

(** X10: in a table with unique ids, nothing one owner creates, updates or
    deletes changes any page or total of another owner's listing. *)
Theorem listings_are_isolated uid other key_id now skip limit db :
  unique_ids db -> other <> uid ->
  (forall f,
      get_keys_by_user_id other skip limit (snd (create_key key_id now uid f db))
      = get_keys_by_user_id other skip limit db)
  /\ (forall u,
      get_keys_by_user_id other skip limit (snd (update_key now key_id uid u db))
      = get_keys_by_user_id other skip limit db)
  /\ get_keys_by_user_id other skip limit (snd (delete_key key_id uid db))
     = get_keys_by_user_id other skip limit db.
Proof.
  intros Hids Hne. split; [|split].
  - intros f. apply listing_of_owned. unfold create_key.
    destruct (find _ db); [reflexivity|].
    destruct (existsb _ db); [reflexivity|].
    simpl snd. rewrite filter_app. simpl.
    apply String.eqb_neq in Hne. rewrite String.eqb_sym in Hne.
    rewrite Hne. apply app_nil_r.
  - intros u. apply listing_of_owned.
    destruct (update_key_table now key_id uid u db)
      as [->|(key & Hin & Hid & Hu & ->)]; [reflexivity|].
    simpl snd. apply (filter_owner_write_row uid other Hne).
    + rewrite user_id_apply_update. exact Hu.
    + eapply sole_owner_of_id; eassumption.
  - apply listing_of_owned.
    destruct (delete_key_table key_id uid db)
      as [->|[(key & Hin & Hid & Hu) ->]]; [reflexivity|].
    simpl snd. apply (filter_owner_delete uid other Hne).
    eapply sole_owner_of_id; eassumption.
Qed.

Lemma listings_are_isolated_witness :
  get_keys_by_user_id "u2" 0 10
    (snd (delete_key "key-1" "u1" [Sample.k1; Demo.k2]))
  = get_keys_by_user_id "u2" 0 10 [Sample.k1; Demo.k2].
Proof.
  apply (listings_are_isolated "u1" "u2" "key-1" 0%Z 0 10
           [Sample.k1; Demo.k2]).
  - repeat constructor; simpl; intuition discriminate.
  - discriminate.
Defined.

(** X11: every operation of the store, whatever its arguments and whether it
    succeeds or raises, leaves a well-formed table well-formed: ids stay
    unique and no owner has two records of one name. *)
Theorem store_keeps_invariants db :
  wf db ->
  (forall uuid4 now uid f, wf (snd (create_key uuid4 now uid f db)))
  /\ (forall now key_id uid u, wf (snd (update_key now key_id uid u db)))
  /\ (forall key_id uid, wf (snd (delete_key key_id uid db))).
Proof.
  intros Hwf. split; [|split]; intros.
  - eapply create_key_wf; [apply surjective_pairing | exact Hwf].
  - eapply update_key_wf; [apply surjective_pairing | exact Hwf].
  - eapply delete_key_wf; [apply surjective_pairing | exact Hwf].
Qed.

Lemma store_keeps_invariants_witness :
  wf (snd (update_key 200 "key-1" "u1" Sample.switch_off [Sample.k1])).
Proof.
  apply (proj1 (proj2 (store_keeps_invariants [Sample.k1] wf_sample))).
Defined.

(* ================================================================== *)
(** ** More on the router *)

Lemma invalid_groups_none requested user_groups :
  (forall g, In g requested -> In g user_groups) ->
  invalid_groups_of requested user_groups = [].
Proof.
  intros Hall. unfold invalid_groups_of.
  induction requested as [|g gs IH]; [reflexivity|]. simpl.
  assert (E : Py.mem g user_groups = true)
    by (apply mem_In, Hall; now left).
  rewrite E. simpl. apply IH. intros g' Hg'. apply Hall. now right.
Qed.

Lemma invalid_groups_all requested :
  invalid_groups_of requested [] = requested.
Proof.
  unfold invalid_groups_of. apply filter_all. reflexivity.
Qed.

(** X12: to a requester who is not the owner, a record that exists gets the
    same answer from [GET], [PUT] and [DELETE /{key_id}] as an id that is in
    no row, so the answers do not tell whether the id exists. *)
Theorem foreign_record_looks_missing dir now u user db k missing :
  wf db -> In k db -> user_id k <> uid_of user ->
  (forall k0, In k0 db -> id k0 <> missing) ->
  get_litellm_key (id k) user db = get_litellm_key missing user db
  /\ update_litellm_key dir now (id k) u user db
     = update_litellm_key dir now missing u user db
  /\ delete_litellm_key (id k) user db = delete_litellm_key missing user db.
Proof.
  intros Hwf Hin Hne Hmiss.
  pose proof (not_owned_by_other db k (uid_of user) Hwf Hin Hne) as E1.
  pose proof (find_fresh_none missing (uid_of user) db Hmiss) as E2.
  unfold get_litellm_key, update_litellm_key, delete_litellm_key,
    get_key_by_id, update_key, delete_key.
  rewrite E1, E2. repeat split; reflexivity.
Qed.

Lemma foreign_record_looks_missing_witness :
  get_litellm_key "key-1" (mkUser "u2" "user") [Sample.k1]
  = get_litellm_key "key-404" (mkUser "u2" "user") [Sample.k1]
  /\ update_litellm_key Sample.directory 200 "key-1" Sample.switch_off
       (mkUser "u2" "user") [Sample.k1]
     = update_litellm_key Sample.directory 200 "key-404" Sample.switch_off
         (mkUser "u2" "user") [Sample.k1]
  /\ delete_litellm_key "key-1" (mkUser "u2" "user") [Sample.k1]
     = delete_litellm_key "key-404" (mkUser "u2" "user") [Sample.k1].
Proof.
  apply (foreign_record_looks_missing Sample.directory 200%Z
           Sample.switch_off (mkUser "u2" "user") [Sample.k1] Sample.k1
           "key-404" wf_sample).
  - now left.
  - discriminate.
  - intros k0 [<-|[]]. discriminate.
Defined.

(** X13: when the group directory fails, an authorised request that names
    any group is refused with 400 and every group it named is listed as one
    the caller does not belong to, on create and on update; a request that
    names no group gets the same answer from every directory, up or down. *)
Theorem directory_failure_rejects_groups dir e uuid4 now key_id f u user db g gs :
  check_litellm_access user = true ->
  dir (uid_of user) = Raise e ->
  (cf_group_ids f = Some (g :: gs) ->
   create_litellm_key dir uuid4 now f user db
   = (Raise (HTTPException 400
               ("User is not a member of groups: " ++ Py.join ", " (g :: gs))),
      db))
  /\ (uf_group_ids u = Some (g :: gs) ->
      update_litellm_key dir now key_id u user db
      = (Raise (HTTPException 400
                  ("User is not a member of groups: " ++ Py.join ", " (g :: gs))),
         db))
  /\ (cf_group_ids f = None \/ cf_group_ids f = Some [] ->
      forall dir',
        create_litellm_key dir uuid4 now f user db
        = create_litellm_key dir' uuid4 now f user db).
Proof.
  intros Hok Hdir.
  assert (Eg : get_user_groups dir user = [])
    by (unfold get_user_groups; now rewrite Hdir).
  split; [|split].
  - intros Hreq. unfold create_litellm_key.
    rewrite Hok, Hreq, Eg, invalid_groups_all. reflexivity.
  - intros Hreq. unfold update_litellm_key.
    rewrite Hok, Hreq, Eg, invalid_groups_all. reflexivity.
  - intros Hreq dir'. unfold create_litellm_key.
    destruct Hreq as [-> | ->]; reflexivity.
Qed.

Lemma directory_failure_rejects_groups_witness :
  create_litellm_key Sample.broken_directory "key-2" 100
    (mkCreateForm "k2" Sample.secret "api_key" (Some ["g1"]) None None)
    Sample.u1 [Sample.k1]
  = (Raise (HTTPException 400 "User is not a member of groups: g1"),
     [Sample.k1]).
Proof.
  apply (proj1 (directory_failure_rejects_groups Sample.broken_directory
           (Exception "group directory unavailable") "key-2" 100%Z "key-1"
           (mkCreateForm "k2" Sample.secret "api_key" (Some ["g1"]) None None)
           Sample.no_change Sample.u1 [Sample.k1] "g1" []
           eq_refl eq_refl)).
  reflexivity.
Defined.

(** X14: an authorised caller who names only groups of their own, with a
    name they have not used and a fresh id, gets the key created: [POST /]
    answers the new record with its raw secret and the requested groups, and
    the record is appended to the table. *)
Theorem valid_groups_accepted dir uuid4 now f user db requested :
  check_litellm_access user = true ->
  cf_group_ids f = Some requested ->
  (forall g, In g requested -> In g (get_user_groups dir user)) ->
  (forall k, In k db -> user_id k = uid_of user -> key_name k <> cf_key_name f) ->
  ~ In uuid4 (map id db) ->
  exists m,
    create_litellm_key dir uuid4 now f user db = (Ok m, (db ++ [m])%list)
    /\ user_id m = uid_of user
    /\ api_key m = cf_api_key f
    /\ group_ids m = Some requested
    /\ is_active m = true.
Proof.
  intros Hok Hreq Hall Hfree Hfresh.
  destruct (create_key_fresh uuid4 now (uid_of user) f db Hfree Hfresh)
    as (m & Hc & _).
  pose proof (create_key_ok uuid4 now (uid_of user) f db m _ Hc)
    as (_ & Em & _).
  exists m. split.
  - unfold create_litellm_key. rewrite Hok, Hreq. simpl negb. cbv iota.
    destruct requested as [|g gs].
    + rewrite Hc. reflexivity.
    + rewrite (invalid_groups_none (g :: gs) _ Hall), Hc. reflexivity.
  - rewrite Em. simpl. auto.
Qed.

Lemma valid_groups_accepted_witness :
  exists m,
    create_litellm_key Sample.directory "key-1" 100 Sample.form1 Sample.u1 []
    = (Ok m, [m])
    /\ user_id m = "u1"
    /\ api_key m = Sample.secret
    /\ group_ids m = Some ["g1"]
    /\ is_active m = true.
Proof.
  apply (valid_groups_accepted Sample.directory "key-1" 100%Z Sample.form1
           Sample.u1 [] ["g1"] eq_refl eq_refl).
  - intros g [<-|[]]. simpl. now left.
  - intros k [].
  - simpl. tauto.
Defined.

(* ================================================================== *)
(** ** The gateway client *)

Section Requests.

Context {B : Type}.
Variable self : LiteLLMClient.

Lemma make_request_ok (outcome : http_outcome B) body :
  _make_request self outcome = Ok body ->
  request_succeeds self outcome
  /\ exists status detail, outcome = Response status detail body.
Proof.
  unfold _make_request, request_succeeds. intros H.
  destruct (enabled self); [|discriminate].
  destruct (has_master_key self); [|discriminate].
  destruct outcome as [msg|e|status detail b]; try discriminate.
  simpl in H. destruct (Z.leb_spec 400 status) as [Hge|Hlt]; [discriminate|].
  inversion H; subst. repeat split; eauto.
Qed.

Lemma make_request_of_success (outcome : http_outcome B) :
  request_succeeds self outcome ->
  exists status detail body,
    outcome = Response status detail body
    /\ _make_request self outcome = Ok body.
Proof.
  intros (He & Hk & status & detail & body & -> & Hlt).
  exists status, detail, body. split; [reflexivity|].
  unfold _make_request. rewrite He, Hk. simpl.
  apply Z.leb_gt in Hlt. now rewrite Hlt.
Qed.

Lemma make_request_failure (outcome : http_outcome B) :
  ~ request_succeeds self outcome ->
  exists e, _make_request self outcome = Raise e.
Proof.
  intros Hno.
  destruct (_make_request self outcome) as [body|e] eqn:E; [|eauto].
  exfalso. apply Hno. eapply make_request_ok; eassumption.
Qed.

Lemma make_request_disabled (outcome : http_outcome B) :
  enabled self = false ->
  _make_request self outcome
  = Raise (Exception "LiteLLM integration is disabled").
Proof. intros He. unfold _make_request. now rewrite He. Qed.

Lemma make_request_unconfigured (outcome : http_outcome B) :
  enabled self = true -> has_master_key self = false ->
  _make_request self outcome
  = Raise (Exception "LiteLLM master API key is not configured").
Proof. intros He Hk. unfold _make_request. now rewrite He, Hk. Qed.

Lemma make_request_status status detail (body : B) :
  enabled self = true -> has_master_key self = true ->
  (400 <= status)%Z ->
  _make_request self (Response status detail body)
  = Raise (Exception
             ("LiteLLM API error: "
              ++ get_or detail ("HTTP " ++ str_of_int status))).
Proof.
  intros He Hk Hs. unfold _make_request. rewrite He, Hk. simpl.
  apply Z.leb_le in Hs. now rewrite Hs.
Qed.

End Requests.

(** X15: [_make_request] gives a body exactly when the integration is
    enabled, a master key is set and the gateway's answer decoded as JSON
    with a status below 400, and the body is the gateway's.  A disabled
    client and a client without a key raise their own [Exception] whatever
    the gateway does; otherwise a client error and a status of 400 or more
    are raised as [Exception] with the source's texts, and any other
    exception is raised again as it is, class and all. *)
Theorem make_request_succeeds_exactly {B : Type} self (outcome : http_outcome B) :
  ((exists body, _make_request self outcome = Ok body)
   <-> request_succeeds self outcome)
  /\ (forall body, _make_request self outcome = Ok body ->
        exists status detail, outcome = Response status detail body)
  /\ (enabled self = false ->
      _make_request self outcome
      = Raise (Exception "LiteLLM integration is disabled"))
  /\ (enabled self = true -> has_master_key self = false ->
      _make_request self outcome
      = Raise (Exception "LiteLLM master API key is not configured"))
  /\ (enabled self = true -> has_master_key self = true ->
      (forall e, outcome = OtherError e ->
         _make_request self outcome = Raise e)
      /\ (forall msg, outcome = ClientError msg ->
           _make_request self outcome
           = Raise (Exception ("Failed to connect to LiteLLM API: " ++ msg)))
      /\ (forall status detail body,
           outcome = Response status detail body -> (400 <= status)%Z ->
           _make_request self outcome
           = Raise (Exception
                      ("LiteLLM API error: "
                       ++ get_or detail ("HTTP " ++ str_of_int status))))).
Proof.
  split; [split|split; [|split; [|split]]].
  - intros [body H]. eapply make_request_ok; eassumption.
  - intros H. destruct (make_request_of_success self outcome H)
      as (status & detail & body & _ & E). eauto.
  - intros body H. eapply make_request_ok; eassumption.
  - apply make_request_disabled.
  - apply make_request_unconfigured.
  - intros He Hk. split; [|split].
    + intros e ->. unfold _make_request. now rewrite He, Hk.
    + intros msg ->. unfold _make_request. now rewrite He, Hk.
    + intros status detail body ->. now apply make_request_status.
Qed.

Lemma make_request_succeeds_exactly_witness :
  _make_request Demo.client
    (@OtherError unit (OtherException "TimeoutError" "timed out"))
  = Raise (OtherException "TimeoutError" "timed out").
Proof.
  apply (proj1 (proj2 (proj2 (proj2 (proj2
           (make_request_succeeds_exactly Demo.client
              (@OtherError unit (OtherException "TimeoutError" "timed out"))))))
           eq_refl eq_refl)).
  reflexivity.
Defined.

Example make_request_status_sample :
  _make_request Demo.client (Response 503 None tt)
  = Raise (Exception "LiteLLM API error: HTTP 503").
Proof. reflexivity. Qed.

(** X16: when a gateway request cannot succeed, the client's reads degrade
    and its writes report: the two listings are empty, the connection test is
    false and the status of a key is inactive with the error's text, while
    delete and update raise an exception that carries the cause. *)
Theorem reads_degrade_writes_report self uid gs key_id now updates
    (listing : http_outcome (option (list KeyInfo)))
    (info : http_outcome dict) (write : http_outcome unit) :
  ~ request_succeeds self listing ->
  ~ request_succeeds self info ->
  ~ request_succeeds self write ->
  get_user_keys uid (_make_request self listing) = []
  /\ get_accessible_keys uid gs (_make_request self listing) = []
  /\ test_connection (_make_request self write) = false
  /\ (exists e,
        _make_request self info = Raise e
        /\ get_key_status key_id (_make_request self info)
           = [("id", JStr key_id); ("is_active", JBool false);
              ("error", JStr (str_of_exn e))])
  /\ (exists e,
        _make_request self write = Raise e
        /\ delete_user_key (_make_request self write)
           = Raise (Exception ("Failed to delete API key: " ++ str_of_exn e))
        /\ update_user_key now key_id uid updates (_make_request self write)
           = Raise (Exception ("Failed to update API key: " ++ str_of_exn e))).
Proof.
  intros H1 H2 H3.
  destruct (make_request_failure self listing H1) as [e1 ->].
  destruct (make_request_failure self info H2) as [e2 ->].
  destruct (make_request_failure self write H3) as [e3 ->].
  simpl. repeat split; eauto.
Qed.

Lemma not_succeeds_when_disabled {B : Type} (o : http_outcome B) :
  ~ request_succeeds Demo.disabled_client o.
Proof. intros (He & _). discriminate He. Defined.

Lemma reads_degrade_writes_report_witness :
  get_user_keys "u1"
    (_make_request Demo.disabled_client (Response 200 None (Some [Sample.entry1])))
  = []
  /\ get_accessible_keys "u1" ["g1"]
       (_make_request Demo.disabled_client
          (Response 200 None (Some [Sample.entry1]))) = []
  /\ test_connection (_make_request Demo.disabled_client (Response 200 None tt))
     = false
  /\ (exists e,
        _make_request Demo.disabled_client (Response 200 None ([] : dict))
        = Raise e
        /\ get_key_status "key-1"
             (_make_request Demo.disabled_client (Response 200 None []))
           = [("id", JStr "key-1"); ("is_active", JBool false);
              ("error", JStr (str_of_exn e))])
  /\ (exists e,
        _make_request Demo.disabled_client (Response 200 None tt) = Raise e
        /\ delete_user_key
             (_make_request Demo.disabled_client (Response 200 None tt))
           = Raise (Exception ("Failed to delete API key: " ++ str_of_exn e))
        /\ update_user_key 200 "key-1" "u1" (mkUpdates None None None None)
             (_make_request Demo.disabled_client (Response 200 None tt))
           = Raise (Exception ("Failed to update API key: " ++ str_of_exn e))).
Proof.
  apply (reads_degrade_writes_report Demo.disabled_client "u1" ["g1"] "key-1"
           200%Z (mkUpdates None None None None)
           (Response 200 None (Some [Sample.entry1]))
           (Response 200 None []) (Response 200 None tt));
    apply not_succeeds_when_disabled.
Defined.

Section OwnAndAccessible.

Variable uid : string.

Lemma mem_nil g : Py.mem g [] = false.
Proof. reflexivity. Qed.





End OwnAndAccessible.


Lemma shares_group_incl groups gs gs' :
  incl gs gs' -> shares_group groups gs -> shares_group groups gs'.
Proof.
  intros Hincl (l & g & E & Hg & Hin). exists l, g. auto.
Qed.

(** X18: on the gateway client a requester with more groups sees no less:
    every entry listed as accessible for a list of groups is listed for
    every list of groups that contains it. *)
Theorem more_groups_more_keys gs gs' uid response e :
  incl gs gs' ->
  In e (get_accessible_keys uid gs response) ->
  In e (get_accessible_keys uid gs' response).
Proof.
  intros Hincl He.
  destruct response as [[data|]|err]; try (simpl in He; contradiction).
  apply get_accessible_keys_exact in He.
  destruct He as (k & Hk & Hv & ->).
  apply get_accessible_keys_exact. exists k. repeat split; auto.
  destruct Hv as [Hv|Hv]; [now left|right].
  eapply shares_group_incl; eassumption.
Qed.

Lemma more_groups_more_keys_witness :
  In (mark_accessible "u2" Sample.entry1)
     (get_accessible_keys "u2" ["g0"; "g1"] (Ok (Some [Sample.entry1]))).
Proof.
  apply (more_groups_more_keys ["g1"] ["g0"; "g1"] "u2"
           (Ok (Some [Sample.entry1])) (mark_accessible "u2" Sample.entry1)
           (fun g H => or_intror H)).
  simpl. now left.
Defined.

(** X19: [DELETE /{key_id}] of the gateway router never answers 404: for an
    authorised user it answers the success message exactly when the gateway
    request succeeds and a 500 that carries the cause otherwise, and for
    anyone else it answers 403. *)
Theorem gateway_delete_never_404 {B : Type} user self (outcome : http_outcome B) :
  (forall d, V2.delete_litellm_key user (_make_request self outcome)
             <> Raise (HTTPException 404 d))
  /\ (check_litellm_access user = true ->
      (V2.delete_litellm_key user (_make_request self outcome) = Ok tt
       <-> request_succeeds self outcome)
      /\ (~ request_succeeds self outcome ->
          exists e,
            _make_request self outcome = Raise e
            /\ V2.delete_litellm_key user (_make_request self outcome)
               = Raise (HTTPException 500
                          ("Failed to delete LiteLLM key: Failed to delete API key: "
                           ++ str_of_exn e))))
  /\ (check_litellm_access user = false ->
      V2.delete_litellm_key user (_make_request self outcome) = access_denied).
Proof.
  unfold V2.delete_litellm_key.
  destruct (check_litellm_access user); simpl.
  - destruct (_make_request self outcome) as [body|e] eqn:E; simpl.
    + split; [discriminate|]. split; [|discriminate].
      intros _. split.
      * split; [intros _|reflexivity].
        eapply make_request_ok; eassumption.
      * intros Hno. exfalso. apply Hno. eapply make_request_ok; eassumption.
    + split; [discriminate|]. split; [|discriminate].
      intros _. split.
      * split; [discriminate|]. intros Hs.
        destruct (make_request_of_success self outcome Hs)
          as (? & ? & ? & _ & E'). congruence.
      * intros _. exists e. split; reflexivity.
  - split; [discriminate|]. split; [discriminate|reflexivity].
Qed.

Lemma gateway_delete_never_404_witness :
  V2.delete_litellm_key Sample.u1
    (_make_request Demo.client (Response 200 None tt)) = Ok tt
  <-> request_succeeds Demo.client (Response 200 None tt).
Proof.
  apply (proj1 (proj2 (gateway_delete_never_404 Sample.u1 Demo.client
                         (Response 200 None tt)))).
  reflexivity.
Defined.

(** X21: [GET /health/connection] always answers a report; the report says
    connected exactly when the health request succeeds, and a connected
    report also says enabled and master key configured. *)
Theorem connection_report_consistent {B : Type} self (outcome : http_outcome B) :
  exists r,
    V2.test_litellm_connection self outcome = Ok r
    /\ (V2.connected r = true <-> request_succeeds self outcome)
    /\ (V2.connected r = true ->
        V2.report_enabled r = true /\ V2.master_key_configured r = true).
Proof.
  eexists. split; [reflexivity|]. simpl.
  assert (Hiff : test_connection (_make_request self outcome) = true
                 <-> request_succeeds self outcome).
  { destruct (_make_request self outcome) as [body|e] eqn:E; simpl.
    - split; [intros _|reflexivity]. eapply make_request_ok; eassumption.
    - split; [discriminate|]. intros Hs.
      destruct (make_request_of_success self outcome Hs)
        as (? & ? & ? & _ & E'). congruence. }
  split; [exact Hiff|].
  intros Hc. apply Hiff in Hc. destruct Hc as (He & Hk & _). auto.
Qed.

(* ================================================================== *)
(** ** The request URL *)

Section Slashes.

Variable c : ascii.

Lemma rstrip_snoc s : rstrip c (s ++ String c EmptyString) = rstrip c s.
Proof.
  induction s as [|c' s IH]; simpl.
  - now rewrite Ascii.eqb_refl.
  - now rewrite IH.
Qed.

Lemma lstrip_cons s : lstrip c (String c s) = lstrip c s.
Proof. simpl. now rewrite Ascii.eqb_refl. Qed.

Lemma lstrip_head s c' rest : lstrip c s = String c' rest -> c' <> c.
Proof.
  induction s as [|a s IH]; simpl; [discriminate|].
  destruct (Ascii.eqb_spec a c) as [E|N]; [exact IH|].
  intros [= <- _]. exact N.
Qed.

Lemma rstrip_last s : forall pre, rstrip c s <> pre ++ String c EmptyString.
Proof.
  induction s as [|a s IH]; simpl; intros pre.
  - destruct pre; discriminate.
  - destruct (rstrip c s) as [|b r] eqn:E.
    + destruct (Ascii.eqb_spec a c) as [Ea|Na].
      * destruct pre; discriminate.
      * destruct pre as [|p pre]; simpl.
        -- intros [= H]. contradiction.
        -- destruct pre; discriminate.
    + destruct pre as [|p pre]; simpl.
      * discriminate.
      * intros [= _ H]. exact (IH pre H).
Qed.

End Slashes.

(** X20: the URL of a gateway request does not change when the base URL
    gets one more trailing slash or the endpoint one more leading slash, and
    the two parts always meet in exactly one slash: the base part does not
    end with one and the endpoint part does not begin with one. *)
Theorem request_url_one_slash base key en endpoint :
  request_url (mkClient (base ++ "/") key en) (String "/" endpoint)
  = request_url (mkClient base key en) endpoint
  /\ request_url (mkClient base key en) endpoint
     = rstrip "/" base ++ "/" ++ lstrip "/" endpoint
  /\ (forall pre, rstrip "/" base <> pre ++ "/")
  /\ (forall rest, lstrip "/" endpoint <> String "/" rest).
Proof.
  split; [|split; [reflexivity|split]].
  - unfold request_url. simpl base_url.
    now rewrite rstrip_snoc, lstrip_cons.
  - apply rstrip_last.
  - intros rest H. exact (lstrip_head "/" endpoint "/" rest H eq_refl).
Qed.

Example request_url_sample :
  request_url Demo.client "/key/info" = "http://gateway:4000/key/info".
Proof. reflexivity. Qed.

(* ================================================================== *)
(** ** Totals of a listing *)

Section Totals.

Variable uid : string.

Lemma owned_count_after_delete key_id : forall db key,
  unique_ids db -> In key db -> id key = key_id -> user_id key = uid ->
  List.length (filter (fun k => user_id k =? uid) db)
  = S (List.length
         (filter (fun k => user_id k =? uid)
            (filter (fun k => negb (id k =? key_id)) db))).
Proof.
  induction db as [|k db IH]; intros key Hids Hin Hid Hu; [destruct Hin|].
  pose proof Hids as Hids'. unfold unique_ids in Hids'. simpl in Hids'.
  apply NoDup_cons_iff in Hids'. destruct Hids' as [Hnotin Hnd].
  simpl. destruct (String.eqb_spec (id k) key_id) as [Ek|Nk]; simpl.
  - assert (Hk : k = key).
    { apply (unique_ids_inj (k :: db) k key Hids); simpl; auto. congruence. }
    rewrite Hk, Hu, String.eqb_refl. simpl. f_equal.
    rewrite (filter_all (fun k0 => negb (id k0 =? key_id)) db);
      [reflexivity|].
    intros k0 Hk0. apply negb_true_iff, String.eqb_neq. intros E.
    apply Hnotin. rewrite Ek, <- E. now apply in_map.
  - destruct Hin as [Hin|Hin]; [congruence|].
    destruct (user_id k =? uid); simpl; [f_equal|];
      apply (IH key); auto.
Qed.

End Totals.

(** X22: a creation that succeeds raises the owner's total by one, and in a
    table with unique ids a deletion that answers true lowers it by one. *)
Theorem totals_follow_operations uid skip limit db :
  (forall uuid4 now f m db',
      create_key uuid4 now uid f db = (Ok m, db') ->
      total (get_keys_by_user_id uid skip limit db')
      = S (total (get_keys_by_user_id uid skip limit db)))
  /\ (forall key_id db',
      unique_ids db ->
      delete_key key_id uid db = (Ok true, db') ->
      total (get_keys_by_user_id uid skip limit db)
      = S (total (get_keys_by_user_id uid skip limit db'))).
Proof.
  split.
  - intros uuid4 now f m db' H.
    apply create_key_ok in H. destruct H as (-> & Em & _).
    simpl. rewrite filter_app, List.length_app. simpl.
    rewrite Em. simpl. rewrite String.eqb_refl. simpl. lia.
  - intros key_id db' Hids H.
    destruct (delete_key_cases key_id uid db)
      as [E|[(key & Hin & Hid & Hu) E]]; rewrite E in H; [discriminate|].
    injection H as <-. simpl.
    eapply owned_count_after_delete; eassumption.
Qed.

Lemma totals_follow_operations_witness :
  total (get_keys_by_user_id "u1" 0 10 [Sample.k1])
  = S (total (get_keys_by_user_id "u1" 0 10 [])).
Proof.
  apply (proj1 (totals_follow_operations "u1" 0 10 [])
           "key-1" 100%Z Sample.form1 Sample.k1 [Sample.k1]).
  reflexivity.
Defined.

(* ================================================================== *)
(** ** The installation test script *)

Section TestRun.

Lemma run_tests_bound outcomes : forall passed,
  passed <= PluginTest.run_tests outcomes passed
  /\ PluginTest.run_tests outcomes passed <= passed + List.length outcomes.
Proof.
  induction outcomes as [|o l IH]; intros passed; simpl; [lia|].
  destruct o as [[|]|e];
    [destruct (IH (S passed)) | destruct (IH passed) | destruct (IH passed)];
    lia.
Qed.

Lemma run_tests_all outcomes : forall passed,
  PluginTest.run_tests outcomes passed = passed + List.length outcomes
  <-> Forall (fun o => o = Ok true) outcomes.
Proof.
  induction outcomes as [|o l IH]; intros passed; simpl.
  - split; [constructor | lia].
  - destruct o as [[|]|e].
    + rewrite Forall_cons_iff, <- (IH (S passed)).
      split; [intros H; split; [reflexivity | lia] | intros [_ H]; lia].
    + split.
      * intros H. pose proof (run_tests_bound l passed). lia.
      * intros H. inversion H; discriminate.
    + split.
      * intros H. pose proof (run_tests_bound l passed). lia.
      * intros H. inversion H; discriminate.
Qed.

End TestRun.

(** X23: the test script's [main] returns 0 exactly when every test
    returned true; a test that returns false or raises makes it return 1,
    and no test stops the run. *)
Theorem main_exit_status outcomes :
  (PluginTest.main outcomes = 0%Z <-> Forall (fun o => o = Ok true) outcomes)
  /\ (PluginTest.main outcomes = 0%Z \/ PluginTest.main outcomes = 1%Z).
Proof.
  unfold PluginTest.main.
  destruct (Nat.eqb_spec (PluginTest.run_tests outcomes 0)
              (List.length outcomes)) as [E|N].
  - split; [|now left]. split; [intros _|reflexivity].
    apply (run_tests_all outcomes 0). exact E.
  - split; [|now right]. split; [discriminate|].
    intros H. apply (run_tests_all outcomes 0) in H. simpl in H. contradiction.
Qed.
